(** * KWG cropland export script: a shallow embedding and its properties

    The development follows [crop_data_download.py]:
    - Python strings ([str]) are modelled as lists of 8-bit characters
      (code points below 256, i.e. the Latin-1 range), with [str.strip],
      [str.lower], [str.replace] and the three regular expressions of the
      script written out on that range;
    - the remote endpoint and the disk are oracles of an environment record;
    - every effect of the script (mkdir, HTTP POST, file write, sleep, print)
      is an event appended to a trace, next to the file system itself;
    - exceptions and [sys.exit] are outcomes of a small state-and-error monad. *)

From Stdlib Require Import Ascii String ZArith NArith Lia.
From stdpp Require Import base list gmap strings sorting.

Open Scope list_scope.

(** ** Python strings *)

Abbreviation pystr := (list ascii).

Definition py (s : string) : pystr := list_ascii_of_string s.

Definition code (c : ascii) : N := N_of_ascii c.

Definition in_range (lo hi : N) (c : ascii) : bool :=
  (lo <=? code c)%N && (code c <=? hi)%N.

(** [str.isspace] on code points below 256: TAB..CR, FS..US, space, NEL, NBSP. *)
Definition py_isspace (c : ascii) : bool :=
  in_range 9 13 c || in_range 28 32 c || (code c =? 133)%N || (code c =? 160)%N.

(** [\d] of [re] on a [str] pattern: the decimal digits (category Nd), which
    below 256 are 0..9 only. Above 255 there are further digits (U+0663 and
    the like), which the strings of this development cannot hold: a
    statement about digits is to be read of the class that [\d] matches. *)
Definition is_digit (c : ascii) : bool := in_range 48 57 c.

(** The character class [a-z0-9]. *)
Definition is_lower_alnum (c : ascii) : bool := in_range 97 122 c || is_digit c.

(** The negated class [^a-z0-9]. *)
Definition not_lower_alnum (c : ascii) : bool := negb (is_lower_alnum c).

Definition underscore : ascii := "_"%char.
Definition ampersand : ascii := "&"%char.
Definition newline : ascii := "010"%char.
Definition dquote : ascii := "034"%char.

Definition is_underscore (c : ascii) : bool := bool_decide (c = underscore).

(** [str.lower] on one character: A..Z, and the Latin-1 capitals
    U+00C0..U+00DE without the multiplication sign U+00D7. Below 256 every
    character has a lower case of one character; above, [str.lower] can
    change the length (U+0130 gives two code points), so nothing below is
    stated of a position in a lower-cased string, except in whitespace,
    which lower-casing leaves as it is. *)
Definition lower_char (c : ascii) : ascii :=
  if in_range 65 90 c || in_range 192 214 c || in_range 216 222 c
  then ascii_of_N (code c + 32)
  else c.

Definition py_lower (s : pystr) : pystr := map lower_char s.

Fixpoint drop_while (p : ascii -> bool) (s : pystr) : pystr :=
  match s with
  | [] => []
  | c :: s' => if p c then drop_while p s' else s
  end.

Fixpoint take_while (p : ascii -> bool) (s : pystr) : pystr :=
  match s with
  | [] => []
  | c :: s' => if p c then c :: take_while p s' else []
  end.

(** [s.lstrip(...)], [s.rstrip(...)], [s.strip(...)] for a set of characters. *)
Definition lstrip_by (p : ascii -> bool) (s : pystr) : pystr := drop_while p s.
Definition rstrip_by (p : ascii -> bool) (s : pystr) : pystr :=
  rev (drop_while p (rev s)).
Definition strip_by (p : ascii -> bool) (s : pystr) : pystr :=
  rstrip_by p (lstrip_by p s).

Definition py_strip (s : pystr) : pystr := strip_by py_isspace s.
Definition py_lstrip (s : pystr) : pystr := lstrip_by py_isspace s.

(** [s.replace("&", "and")]. *)
Fixpoint replace_amp (s : pystr) : pystr :=
  match s with
  | [] => []
  | c :: s' =>
      if bool_decide (c = ampersand) then py "and" ++ replace_amp s'
      else c :: replace_amp s'
  end.

(** [re.sub(r"[cls]+", "_", s)]: a left-to-right scan that emits one
    underscore when it enters a maximal run of characters of the class and
    nothing for the rest of the run. [in_run] tells that the previous
    character belonged to the class. *)
Fixpoint re_sub_scan (cls : ascii -> bool) (in_run : bool) (s : pystr) : pystr :=
  match s with
  | [] => []
  | c :: s' =>
      if cls c
      then (if in_run then re_sub_scan cls true s'
            else underscore :: re_sub_scan cls true s')
      else c :: re_sub_scan cls false s'
  end.

Definition re_sub_runs (cls : ascii -> bool) (s : pystr) : pystr :=
  re_sub_scan cls false s.

Definition FALLBACK_SLUG : pystr := py "unknown_county".

(** [safe_filename], lines 21-27. *)
Definition safe_filename (s : pystr) : pystr :=
  let s := py_lower (py_strip s) in
  let s := replace_amp s in
  let s := re_sub_runs not_lower_alnum s in
  let s := strip_by is_underscore (re_sub_runs is_underscore s) in
  match s with
  | [] => FALLBACK_SLUG
  | _ => s
  end.

(** [s.startswith(p)]. *)
Fixpoint startswith (p s : pystr) : bool :=
  match p, s with
  | [], _ => true
  | _ :: _, [] => false
  | a :: p', b :: s' => bool_decide (a = b) && startswith p' s'
  end.

(** [p in s] for strings. *)
Fixpoint contains (p s : pystr) : bool :=
  startswith p s ||
  match s with
  | [] => false
  | _ :: s' => contains p s'
  end.

(** ** The suffix pattern of [extract_fips_from_iri] *)

Definition REGION_PREFIX : pystr := py "administrativeRegion.USA.".

(** [$] without [re.MULTILINE]: at the end of the string, or just before a
    newline that is the last character of the string. *)
Definition at_dollar (rest : pystr) : bool :=
  match rest with
  | [] => true
  | [c] => bool_decide (c = newline)
  | _ => false
  end.

(** [(\d+)$] after the literal: the greedy quantifier first takes the whole
    digit run and then gives characters back one at a time; [k] is the number
    of digits currently taken. *)
Fixpoint digits_then_dollar (k : nat) (r : pystr) : option pystr :=
  match k with
  | O => None
  | S k' =>
      if at_dollar (drop k r) then Some (take k r)
      else digits_then_dollar k' r
  end.

(** One attempt of the pattern at the start of [s]. *)
Definition match_here (s : pystr) : option pystr :=
  if startswith REGION_PREFIX s then
    let r := drop (length REGION_PREFIX) s in
    digits_then_dollar (length (take_while is_digit r)) r
  else None.

(** [re.search]: the leftmost position at which the pattern matches. *)
Fixpoint re_search_fips (s : pystr) : option pystr :=
  match match_here s with
  | Some d => Some d
  | None =>
      match s with
      | [] => None
      | _ :: s' => re_search_fips s'
      end
  end.

Definition UNKNOWN_CODE : pystr := py "unknown".

(** [extract_fips_from_iri], lines 118-121. *)
Definition extract_fips_from_iri (county_iri : pystr) : pystr :=
  match re_search_fips county_iri with
  | Some d => d
  | None => UNKNOWN_CODE
  end.

(** ** Exceptions, responses and the environment *)

(** The exceptions the script can meet; all of them derive from [Exception]. *)
Inductive exn :=
| HTTPError (status : Z) (body : pystr)   (* raised by [resp.raise_for_status()] *)
| RequestException (msg : pystr)          (* ConnectionError, Timeout, ... of [requests.post] *)
| JSONDecodeError                         (* [resp.json()] on a body that is not JSON *)
| KeyError (key : string)                 (* a missing member of the JSON document *)
| OSError (msg : pystr).                  (* a failing file operation *)

(** A path as [pathlib] sees it: its components. *)
Abbreviation path := (list pystr).

(** The JSON document of a SELECT answer, in the shape of the SPARQL 1.1
    Query Results JSON Format: [data["results"]["bindings"]] is an array of
    objects that map a variable to an object with string members. *)
Abbreviation rdf_term := (gmap string pystr).
Abbreviation binding := (gmap string rdf_term).
Abbreviation json_doc := (gmap string (gmap string (list binding))).

Record response := {
  status_code : Z;
  text : pystr;
  json_body : option json_doc   (* what [resp.json()] parses, if the body is JSON *)
}.

Record request := {
  req_url : pystr;
  req_query : pystr;     (* the form field [query] *)
  req_accept : pystr;    (* the [Accept] header *)
  req_verify : bool;
  req_timeout : Z
}.

Inductive post_result :=
| PostRaised (e : exn)
| PostReturned (r : response).

Inductive message :=
| MOutputDir (p : path)                                   (* line 125 *)
| MFetching                                               (* line 126 *)
| MFound (n : nat)                                        (* line 128 *)
| MExporting (i total : nat) (label iri fname : pystr)    (* line 136 *)
| MErrorHTTP (status : Z)                                 (* line 144 *)
| MBody (body : pystr)                                    (* line 145 *)
| MError (e : exn)                                        (* line 148 *)
| MLooksLikeHTML                                          (* line 153 *)
| MSavedKB (bytes : nat)                                  (* line 157 *)
| MDone                                                   (* line 162 *)
| MNoCounty (fips : pystr)                                (* line 173 *)
| MSavedPath (p : path).                                  (* line 180 *)

(** The observable effects, in the order in which they happen. A write is
    recorded with its success; a POST with what came back. *)
Inductive event :=
| EMkdir (p : path)
| EPost (rq : request) (res : post_result)
| EWrite (p : path) (content : pystr) (ok : bool)
| ESleep (ms : Z)
| EPrint (m : message).

(** The environment of one run: the home directory, the remote service and
    the disk. The two oracles are indexed by the number of events that
    happened before the call, so the same request may be answered
    differently at different moments. *)
Record env := {
  home : path;
  net : nat -> request -> post_result;
  disk_ok : nat -> path -> pystr -> bool
}.

Record world := {
  trace : list event;
  dirs : gset path;
  files : gmap path pystr
}.

Definition emit (ev : event) (w : world) : world :=
  {| trace := trace w ++ [ev]; dirs := dirs w; files := files w |}.

Definition now (w : world) : nat := length (trace w).

(** ** The monad of the script: state, exceptions and [sys.exit] *)

Inductive outcome (A : Type) :=
| Returned (a : A)
| Raised (e : exn)
| Exited (status : Z).
Arguments Returned {A} a.
Arguments Raised {A} e.
Arguments Exited {A} status.

Definition Py (A : Type) : Type := world -> outcome A * world.

Definition py_ret {A} (a : A) : Py A := fun w => (Returned a, w).

Definition py_bind {A B} (m : Py A) (f : A -> Py B) : Py B :=
  fun w =>
    match m w with
    | (Returned a, w') => f a w'
    | (Raised e, w') => (Raised e, w')
    | (Exited c, w') => (Exited c, w')
    end.

#[global] Instance Py_ret : MRet Py := @py_ret.
#[global] Instance Py_bind : MBind Py := fun A B f m => py_bind m f.

Definition raise {A} (e : exn) : Py A := fun w => (Raised e, w).

(** [sys.exit(status)]: [SystemExit] is not an [Exception], no handler of the
    script catches it. *)
Definition sys_exit {A} (status : Z) : Py A := fun w => (Exited status, w).

(** [try: m  except Exception as e: ...], the handler applied by the caller. *)
Definition try_except {A} (m : Py A) : Py (A + exn) :=
  fun w =>
    match m w with
    | (Returned a, w') => (Returned (inl a), w')
    | (Raised e, w') => (Returned (inr e), w')
    | (Exited c, w') => (Exited c, w')
    end.

(** The exit status of the process. An uncaught exception prints a traceback
    and ends the interpreter with status 1. *)
Definition exit_status {A} (o : outcome A) : Z :=
  match o with
  | Returned _ => 0
  | Raised _ => 1
  | Exited c => c
  end.

(** ** Primitive effects *)

Definition print (m : message) : Py unit :=
  fun w => (Returned tt, emit (EPrint m) w).

Definition sleep (ms : Z) : Py unit :=
  fun w => (Returned tt, emit (ESleep ms) w).

(** The path itself and all its ancestors. *)
Definition with_parents (p : path) : list path :=
  map (fun k => take k p) (seq 1 (length p)).

(** [p.mkdir(parents=True, exist_ok=True)] when it succeeds. The call of
    line 11 can raise; that path is in [invocation], below, and [script] is
    what follows a line 11 that passed (the call of line 176 then finds the
    directory). *)
Definition mkdir_p (p : path) : Py unit :=
  fun w =>
    (Returned tt,
     {| trace := trace w ++ [EMkdir p];
        dirs := dirs w ∪ list_to_set (with_parents p);
        files := files w |}).

(** [requests.post(...)]. *)
Definition post (E : env) (rq : request) : Py response :=
  fun w =>
    let res := net E (now w) rq in
    match res with
    | PostRaised e => (Raised e, emit (EPost rq res) w)
    | PostReturned r => (Returned r, emit (EPost rq res) w)
    end.

(** [resp.raise_for_status()]: an error for the 4xx and 5xx statuses. *)
Definition raise_for_status (r : response) : Py unit :=
  if ((400 <=? status_code r) && (status_code r <? 600))%Z
  then raise (HTTPError (status_code r) (text r))
  else mret tt.

(** [resp.json()]. *)
Definition resp_json (r : response) : Py json_doc :=
  match json_body r with
  | Some d => mret d
  | None => raise JSONDecodeError
  end.

(** [d[key]] on a dict. *)
Definition getitem {V} (d : gmap string V) (key : string) : Py V :=
  match d !! key with
  | Some v => mret v
  | None => raise (KeyError key)
  end.

(** [p.write_text(content, encoding="utf-8")]: the file is replaced, or the
    operation raises. [files] keeps the old content after a failure, which is
    what a failing open leaves; a write that fails after the open (mode w
    truncates) leaves the file empty or partly written, so nothing below is
    stated of the content of a file after a failed write to it. *)
Definition write_text (E : env) (p : path) (content : pystr) : Py unit :=
  fun w =>
    if disk_ok E (now w) p content
    then (Returned tt,
          {| trace := trace w ++ [EWrite p content true];
             dirs := dirs w;
             files := <[p := content]> (files w) |})
    else (Raised (OSError (py "write_text")), emit (EWrite p content false) w).

(** The number of bytes of the UTF-8 encoding. *)
Definition utf8_size (s : pystr) : nat :=
  foldr (fun c n => if (code c <? 128)%N then S n else S (S n)) 0 s.

(** [p.stat().st_size]. *)
Definition stat_size (p : path) : Py nat :=
  fun w =>
    match files w !! p with
    | Some content => (Returned (utf8_size content), w)
    | None => (Raised (OSError (py "stat")), w)
    end.

(** ** The script *)

Definition KWG_ENDPOINT : pystr :=
  py "https://stko-kwg.geog.ucsb.edu/graphdb/repositories/KWG".

Definition OUT_DIR (E : env) : path :=
  home E ++ [py "Desktop"; py "kwg_maine_cropland_by_county"].

Definition ACCEPT_TTL : pystr := py "text/turtle".
Definition ACCEPT_JSON : pystr := py "application/sparql-results+json".
Definition VERIFY_SSL : bool := false.

Definition select_request (query : pystr) : request :=
  {| req_url := KWG_ENDPOINT; req_query := query; req_accept := ACCEPT_JSON;
     req_verify := VERIFY_SSL; req_timeout := 300 |}.

Definition construct_request (query : pystr) : request :=
  {| req_url := KWG_ENDPOINT; req_query := query; req_accept := ACCEPT_TTL;
     req_verify := VERIFY_SSL; req_timeout := 600 |}.

(** [run_select], lines 30-40. *)
Definition run_select (E : env) (query : pystr) : Py json_doc :=
  resp ← post E (select_request query);
  raise_for_status resp;;
  resp_json resp.

(** [run_construct], lines 43-53. *)
Definition run_construct (E : env) (query : pystr) : Py pystr :=
  resp ← post E (construct_request query);
  raise_for_status resp;;
  mret (text resp).

Definition COUNTIES_QUERY : pystr :=
  py "
PREFIX kwg-ont: <http://stko-kwg.geog.ucsb.edu/lod/ontology/>
PREFIX kwgr: <http://stko-kwg.geog.ucsb.edu/lod/resource/>
PREFIX rdfs: <http://www.w3.org/2000/01/rdf-schema#>

SELECT DISTINCT ?county ?label
WHERE {
  ?county kwg-ont:administrativePartOf kwgr:administrativeRegion.USA.23 ;
          rdfs:label ?label .
  FILTER(CONTAINS(STR(?county), " ++ [dquote] ++ py "administrativeRegion.USA.23" ++ [dquote] ++ py "))
}
ORDER BY ?label
".

(** The body of the loop of lines 75-78, on one binding. *)
Definition county_of_binding (b : binding) : Py (pystr * pystr) :=
  c ← getitem b "county";
  county_iri ← getitem c "value";
  l ← getitem b "label";
  label ← getitem l "value";
  mret (county_iri, label).

Fixpoint collect_counties (bs : list binding) : Py (list (pystr * pystr)) :=
  match bs with
  | [] => mret []
  | b :: bs' =>
      c ← county_of_binding b;
      cs ← collect_counties bs';
      mret (c :: cs)
  end.

(** [get_maine_counties], lines 56-79. *)
Definition get_maine_counties (E : env) : Py (list (pystr * pystr)) :=
  data ← run_select E COUNTIES_QUERY;
  results ← getitem data "results";
  bindings ← getitem results "bindings";
  collect_counties bindings.

Definition CONSTRUCT_HEAD : pystr :=
  py "
PREFIX owl: <http://www.w3.org/2002/07/owl#>
PREFIX kwg-ont: <http://stko-kwg.geog.ucsb.edu/lod/ontology/>
PREFIX kwgr: <http://stko-kwg.geog.ucsb.edu/lod/resource/>
PREFIX sosa: <http://www.w3.org/ns/sosa/>
PREFIX rdfs: <http://www.w3.org/2000/01/rdf-schema#>
PREFIX rdf: <http://www.w3.org/1999/02/22-rdf-syntax-ns#>

CONSTRUCT {
    ?s2Cell sosa:isFeatureOfInterestOf ?croplandObsCollection .
    ?croplandObsCollection rdf:type kwg-ont:CroplandS2OverlapObservationCollection .
    ?croplandObsCollection rdfs:label ?label .
    ?croplandObsCollection sosa:phenomenonTime ?kwgrInstant .
    ?croplandObsCollection sosa:hasMember ?CroplandS2OverlapObservation .
    ?CroplandS2OverlapObservation rdf:type kwg-ont:CroplandS2OverlapObservation .
    ?CroplandS2OverlapObservation rdfs:label ?description .
    ?CroplandS2OverlapObservation sosa:observedProperty ?observedProperty .
    ?CroplandS2OverlapObservation sosa:hasSimpleResult ?sosaSimpleResult .
}
WHERE {
    <".

Definition CONSTRUCT_TAIL : pystr :=
  py "> kwg-ont:sfContains ?s2Cell .
    ?s2Cell sosa:isFeatureOfInterestOf ?croplandObsCollection .
    ?croplandObsCollection rdf:type kwg-ont:CroplandS2OverlapObservationCollection .
    ?croplandObsCollection rdfs:label ?label .
    ?croplandObsCollection sosa:phenomenonTime ?kwgrInstant .
    ?croplandObsCollection sosa:hasMember ?CroplandS2OverlapObservation .
    ?CroplandS2OverlapObservation rdf:type kwg-ont:CroplandS2OverlapObservation .
    ?CroplandS2OverlapObservation rdfs:label ?description .
    ?CroplandS2OverlapObservation sosa:observedProperty ?observedProperty .
    ?CroplandS2OverlapObservation sosa:hasSimpleResult ?sosaSimpleResult .
}
".

(** [construct_for_county], lines 82-115. *)
Definition construct_for_county (county_iri : pystr) : pystr :=
  CONSTRUCT_HEAD ++ county_iri ++ CONSTRUCT_TAIL.

(** The test of line 152. *)
Definition looks_like_html (ttl_text : pystr) : bool :=
  startswith (py "<!doctype html") (py_lower (py_lstrip ttl_text))
  || contains (py "<html") (py_lower (take 200 ttl_text)).

(** The file name of line 133 (and of line 177, with the code given on the
    command line). *)
Definition ttl_name (label fips : pystr) : pystr :=
  py "cropland_" ++ safe_filename label ++ py "_" ++ fips ++ py ".ttl".

(** The pause of line 160, in milliseconds. *)
Definition PAUSE_MS : Z := 300.

(** The body of the loop of [main], lines 131-160. Each [continue] of the
    source ends the body early. *)
Definition export_county (E : env) (total i : nat) (c : pystr * pystr) : Py unit :=
  let '(county_iri, label) := c in
  let fips := extract_fips_from_iri county_iri in
  let fname := ttl_name label fips in
  let out_path := OUT_DIR E ++ [fname] in
  print (MExporting i total label county_iri fname);;
  let q := construct_for_county county_iri in
  r ← try_except (run_construct E q);
  match r with
  | inr (HTTPError status body) =>
      print (MErrorHTTP status);;
      print (MBody (take 1000 body))
  | inr e =>
      print (MError e)
  | inl ttl_text =>
      if looks_like_html ttl_text then
        print MLooksLikeHTML
      else
        write_text E out_path ttl_text;;
        size ← stat_size out_path;
        print (MSavedKB size);;
        sleep PAUSE_MS
  end.

Fixpoint export_loop (E : env) (total i : nat) (cs : list (pystr * pystr)) : Py unit :=
  match cs with
  | [] => mret tt
  | c :: cs' => export_county E total i c;; export_loop E total (S i) cs'
  end.

(** [main], lines 124-162. *)
Definition main (E : env) : Py unit :=
  print (MOutputDir (OUT_DIR E));;
  print MFetching;;
  counties ← get_maine_counties E;
  print (MFound (length counties));;
  export_loop E (length counties) 1 counties;;
  print MDone.

(** The list comprehension of line 171. *)
Definition matching (target_fips : pystr) (counties : list (pystr * pystr))
  : list (pystr * pystr) :=
  filter (fun c => extract_fips_from_iri c.1 = target_fips) counties.

(** The single-county branch, lines 169-180. *)
Definition single (E : env) (arg : pystr) : Py unit :=
  let target_fips := py_strip arg in
  counties ← get_maine_counties E;
  match matching target_fips counties with
  | [] =>
      print (MNoCounty target_fips);;
      sys_exit 1
  | (county_iri, label) :: _ =>
      mkdir_p (OUT_DIR E);;
      let out_path := OUT_DIR E ++ [ttl_name label target_fips] in
      ttl_text ← run_construct E (construct_for_county county_iri);
      write_text E out_path ttl_text;;
      print (MSavedPath out_path)
  end.

(** The module as it is executed when line 11 passes: the [mkdir] of line
    11, then the dispatch of lines 165-182 on [sys.argv] (the program name
    first). *)
Definition script (E : env) (argv : list pystr) : Py unit :=
  mkdir_p (OUT_DIR E);;
  match argv with
  | [_; arg] => single E arg
  | _ => main E
  end.

(** The world before the interpreter starts. *)
Definition boot (ds : gset path) (fs : gmap path pystr) : world :=
  {| trace := []; dirs := ds; files := fs |}.

(** ** Reading a trace *)

Definition posts_of (tr : list event) : list (request * post_result) :=
  omap (fun ev => match ev with EPost rq res => Some (rq, res) | _ => None end) tr.

Definition writes_of (tr : list event) : list (path * pystr * bool) :=
  omap (fun ev => match ev with EWrite p c ok => Some (p, c, ok) | _ => None end) tr.

Definition sleeps_of (tr : list event) : list Z :=
  omap (fun ev => match ev with ESleep ms => Some ms | _ => None end) tr.

Definition prints_of (tr : list event) : list message :=
  omap (fun ev => match ev with EPrint m => Some m | _ => None end) tr.

Definition mkdirs_of (tr : list event) : list path :=
  omap (fun ev => match ev with EMkdir p => Some p | _ => None end) tr.

(** ** Notions for the statements about slugs *)

(** The characters of the class [a-z0-9_]. *)
Definition slug_char (c : ascii) : bool := is_lower_alnum c || is_underscore c.

(** [tidy prev s]: every character of [s] is in [a-z0-9_] and no underscore
    follows an underscore; [prev] tells that the character before [s] is an
    underscore. *)
Fixpoint tidy (prev : bool) (s : pystr) : bool :=
  match s with
  | [] => true
  | c :: s' =>
      if is_underscore c then negb prev && tidy true s'
      else is_lower_alnum c && tidy false s'
  end.

Ltac all_chars c :=
  destruct c as [[] [] [] [] [] [] [] []]; vm_compute; try reflexivity; try discriminate.

(** What [safe_filename] computes before the fallback is applied. *)
Definition slug_core (s : pystr) : pystr :=
  strip_by is_underscore
    (re_sub_runs is_underscore
       (re_sub_runs not_lower_alnum (replace_amp (py_lower (py_strip s))))).

(** ** Notions for the statements about the suffix pattern *)

(** [s.endswith(p)]. *)
Definition endswith (p s : pystr) : bool := startswith (rev p) (rev s).

(** The maximal run of digits at the end of [s]. *)
Definition trailing_digits (s : pystr) : pystr := rev (take_while is_digit (rev s)).

(** The claim's reading of the pattern: the identifier ends with the region
    prefix followed by one or more digits; the code is that digit run. *)
Definition code_of_suffix (s : pystr) : pystr :=
  let d := trailing_digits s in
  let stem := take (length s - length d) s in
  match d with
  | [] => UNKNOWN_CODE
  | _ => if endswith REGION_PREFIX stem then d else UNKNOWN_CODE
  end.

(** [s] without its last character when that character is a newline. *)
Definition chomp (s : pystr) : pystr :=
  match rev s with
  | c :: r => if bool_decide (c = newline) then rev r else s
  | [] => s
  end.

Definition all_digits (d : pystr) : Prop := Forall (fun c => is_digit c = true) d.

(** ** Notions for the statements about the enumeration *)

Ltac py_unfold :=
  unfold mbind, mret, Py_bind, Py_ret, py_bind, py_ret, raise, sys_exit,
    try_except, print, sleep, emit in *.

(** The pair of one binding, when both variables are bound to a term with a
    value. *)
Definition binding_pair (b : binding) : option (pystr * pystr) :=
  c ← b !! "county";
  county_iri ← c !! "value";
  l ← b !! "label";
  label ← l !! "value";
  Some (county_iri, label).

(** The status test of [raise_for_status]. *)
Definition error_status (st : Z) : bool := ((400 <=? st) && (st <? 600))%Z.

(** ** One county, as a function of the answers it receives *)

(** What [run_construct] yields for an answer of the service. *)
Definition construct_outcome (res : post_result) : pystr + exn :=
  match res with
  | PostRaised e => inr e
  | PostReturned r =>
      if error_status (status_code r)
      then inr (HTTPError (status_code r) (text r))
      else inl (text r)
  end.

(** The four branches of the loop body after the call. *)
Inductive verdict :=
| VHttpError (status : Z) (body : pystr)
| VOtherError (e : exn)
| VHtml
| VAccepted (ttl_text : pystr).

Definition classify (res : post_result) : verdict :=
  match construct_outcome res with
  | inr (HTTPError status body) => VHttpError status body
  | inr e => VOtherError e
  | inl ttl_text => if looks_like_html ttl_text then VHtml else VAccepted ttl_text
  end.

(** The events of a loop body after the POST; [ok] is the answer of the disk,
    looked at for an accepted document only. *)
Definition tail_events (p : path) (v : verdict) (ok : bool) : list event :=
  match v with
  | VHttpError status body => [EPrint (MErrorHTTP status); EPrint (MBody (take 1000 body))]
  | VOtherError e => [EPrint (MError e)]
  | VHtml => [EPrint MLooksLikeHTML]
  | VAccepted ttl_text =>
      if ok then [EWrite p ttl_text true; EPrint (MSavedKB (utf8_size ttl_text));
                  ESleep PAUSE_MS]
      else [EWrite p ttl_text false]
  end.

(** The loop body leaves through an exception: a file write that fails. *)
Definition aborts (v : verdict) (ok : bool) : bool :=
  match v with
  | VAccepted _ => negb ok
  | _ => false
  end.

Definition out_path (E : env) (c : pystr * pystr) : path :=
  OUT_DIR E ++ [ttl_name c.2 (extract_fips_from_iri c.1)].

Definition county_request (c : pystr * pystr) : request :=
  construct_request (construct_for_county c.1).

Definition segment (E : env) (total i : nat) (c : pystr * pystr)
    (res : post_result) (ok : bool) : list event :=
  [EPrint (MExporting i total c.2 c.1 (ttl_name c.2 (extract_fips_from_iri c.1)));
   EPost (county_request c) res]
  ++ tail_events (out_path E c) (classify res) ok.

(** The effect of one event on the files. *)
Definition apply_event (fs : gmap path pystr) (ev : event) : gmap path pystr :=
  match ev with
  | EWrite p content true => <[p := content]> fs
  | _ => fs
  end.

Definition apply_writes (evs : list event) (fs : gmap path pystr) : gmap path pystr :=
  foldl apply_event fs evs.

(** The effect of one event on the directories. *)
Definition apply_dir (ds : gset path) (ev : event) : gset path :=
  match ev with
  | EMkdir p => ds ∪ list_to_set (with_parents p)
  | _ => ds
  end.

(** The world after the events [evs]. *)
Definition advance (w : world) (evs : list event) : world :=
  {| trace := trace w ++ evs;
     dirs := foldl apply_dir (dirs w) evs;
     files := apply_writes evs (files w) |}.

(** ** The sweep as a relation on traces *)

(** [sweep E total i cs evs o]: the loop of [main], started at index [i] on
    the counties [cs], can produce the events [evs] and end in [o]. Each
    county contributes its segment; the loop stops at the first file write
    that fails. The answers are answers of the environment at some moment. *)
Inductive sweep (E : env) (total : nat) :
    nat -> list (pystr * pystr) -> list event -> outcome unit -> Prop :=
| sweep_done i :
    sweep E total i [] [] (Returned tt)
| sweep_next i c cs t t' res ok evs o :
    res = net E t (county_request c) ->
    (forall ttl_text, classify res = VAccepted ttl_text ->
                      ok = disk_ok E t' (out_path E c) ttl_text) ->
    aborts (classify res) ok = false ->
    sweep E total (S i) cs evs o ->
    sweep E total i (c :: cs) (segment E total i c res ok ++ evs) o
| sweep_abort i c cs t t' res ok :
    res = net E t (county_request c) ->
    (forall ttl_text, classify res = VAccepted ttl_text ->
                      ok = disk_ok E t' (out_path E c) ttl_text) ->
    aborts (classify res) ok = true ->
    sweep E total i (c :: cs) (segment E total i c res ok)
      (Raised (OSError (py "write_text"))).

(** The document that ends in a file, if the answer is accepted. *)
Definition accepted (res : post_result) : option pystr :=
  match classify res with
  | VAccepted ttl_text => Some ttl_text
  | _ => None
  end.



(** ** The request of the enumeration and the first prints *)

Definition SELECT : request := select_request COUNTIES_QUERY.

Definition main_head (E : env) : list event :=
  [EPrint (MOutputDir (OUT_DIR E)); EPrint MFetching].

(** ** Concrete environments *)

Definition IRI_23001 : pystr :=
  py "http://stko-kwg.geog.ucsb.edu/lod/resource/administrativeRegion.USA.23001".
Definition IRI_23003 : pystr :=
  py "http://stko-kwg.geog.ucsb.edu/lod/resource/administrativeRegion.USA.23003".
Definition ANDROSCOGGIN : pystr := py "Androscoggin County, Maine".
Definition AROOSTOOK : pystr := py "Aroostook County, Maine".

Definition mk_binding (county_iri label : pystr) : binding :=
  {[ "county" := {[ "type" := py "uri"; "value" := county_iri ]};
     "label" := {[ "type" := py "literal"; "value" := label ]} ]}.

Definition mk_doc (bs : list binding) : json_doc :=
  {[ "results" := {[ "bindings" := bs ]} ]}.

Definition ok_response (body : pystr) (doc : option json_doc) : post_result :=
  PostReturned {| status_code := 200; text := body; json_body := doc |}.

(** A service that answers every SELECT with the bindings [bs] and every
    CONSTRUCT with [answer], on a disk that answers [disk]. *)
Definition service (bs : list binding) (answer : post_result) (disk : bool) : env :=
  {| home := [py "home"; py "user"];
     net := fun _ rq =>
       if bool_decide (req_accept rq = ACCEPT_JSON)
       then ok_response [] (Some (mk_doc bs))
       else answer;
     disk_ok := fun _ _ _ => disk |}.

Definition two_counties : list binding :=
  [mk_binding IRI_23001 ANDROSCOGGIN; mk_binding IRI_23003 AROOSTOOK].

Definition HTML_PAGE : pystr :=
  py "  <!DOCTYPE HTML><html><body>Service unavailable</body></html>".

Definition TURTLE_DOC : pystr :=
  py "@prefix sosa: <http://www.w3.org/ns/sosa/> .".

Definition PROG : pystr := py "crop_data_download.py".

(** ** The worlds in which the two modes start *)

(** The world in which [main] starts, and the events up to the loop. *)
Definition sweep_start (E : env) (ds : gset path) (fs : gmap path pystr) : world :=
  advance (boot ds fs) (EMkdir (OUT_DIR E) :: main_head E).

Definition sweep_prefix (E : env) (ds : gset path) (fs : gmap path pystr)
    (n : nat) : list event :=
  EMkdir (OUT_DIR E) :: main_head E
  ++ [EPost SELECT (net E (now (sweep_start E ds fs)) SELECT); EPrint (MFound n)].

Definition ANDROSCOGGIN_TTL : pystr := py "cropland_androscoggin_county_maine_23001.ttl".

(** The world in which the single-county branch starts. *)
Definition single_start (E : env) (ds : gset path) (fs : gmap path pystr) : world :=
  advance (boot ds fs) [EMkdir (OUT_DIR E)].

(** ** The order of the enumeration *)

(** Lexicographic order on the code points. *)
Fixpoint str_le (a b : pystr) : bool :=
  match a, b with
  | [], _ => true
  | _ :: _, [] => false
  | x :: a', y :: b' =>
      (code x <? code y)%N || ((code x =? code y)%N && str_le a' b')
  end.

(** The list is in ascending order of its labels. *)
Fixpoint is_sorted_by_label (cs : list (pystr * pystr)) : bool :=
  match cs with
  | [] => true
  | c :: cs' =>
      match cs' with
      | [] => true
      | d :: _ => str_le c.2 d.2
      end && is_sorted_by_label cs'
  end.

(** ** Notions for further properties of the names *)

(** The path separator. *)
Definition slash : ascii := "/"%char.

(** The prefix of every file name of line 133, and the prefix that line 152
    looks for. *)
Definition NAME_PREFIX : pystr := py "cropland_".

(** ** Notions for further properties of the runs *)

(** The progress counters of the messages of line 136. *)
Definition exporting_of (tr : list event) : list (nat * nat) :=
  omap (fun ev => match ev with
                  | EPrint (MExporting i total _ _ _) => Some (i, total)
                  | _ => None
                  end) tr.


(** The content of the last successful write to [p], if there is one. *)
Definition written (p : path) (tr : list event) : option pystr :=
  foldl (fun acc ev =>
           match ev with
           | EWrite q content true => if decide (q = p) then Some content else acc
           | _ => acc
           end) None tr.

(** ** The converter [triplify_Crop_Category.py]

    The data frame read at line 4 is the input: a list of rows, each a list
    of cells. The script raises when a row has no cell at a position it
    reads; [None] stands for that exception. The result is the list
    [triples] and the text written to the file at line 75; the final print
    is left out. *)

Definition tab : ascii := "009"%char.
Definition space : ascii := " "%char.

(** A cell as [iterrows] yields it: missing (NaN), or a value, given by what
    [str] makes of it. *)
Inductive cell :=
| NaN
| Val (repr : pystr).

(** [pd.notna(x)]. *)
Definition notna (c : cell) : bool :=
  match c with
  | NaN => false
  | Val _ => true
  end.

(** [str(x)]; the missing value prints as nan. *)
Definition cell_str (c : cell) : pystr :=
  match c with
  | NaN => py "nan"
  | Val s => s
  end.

(** [str(row[k]).strip() if pd.notna(row[k]) else None], lines 22-23 and
    53-54; [row[k]] is the cell at position [k]. *)
Definition optional_field (r : list cell) (k : nat) : option (option pystr) :=
  c ← r !! k;
  Some (if notna c then Some (py_strip (cell_str c)) else None).

(** [s.replace(" ", "")]. *)
Definition remove_spaces (s : pystr) : pystr := filter (fun c => c <> space) s.

(** [if name: names.add(name.replace(" ", ""))], lines 25-28. *)
Definition add_name (name : option pystr) (names : gset pystr) : gset pystr :=
  match name with
  | Some (c :: s) => {[ remove_spaces (c :: s) ]} ∪ names
  | _ => names
  end.

(** The first loop, lines 21-28. *)
Fixpoint collect_names (df : list (list cell)) (cats subs : gset pystr)
  : option (gset pystr * gset pystr) :=
  match df with
  | [] => Some (cats, subs)
  | r :: df' =>
      crop_category ← optional_field r 2;
      crop_subcategory ← optional_field r 3;
      collect_names df' (add_name crop_category cats) (add_name crop_subcategory subs)
  end.

Definition str_le_rel (a b : pystr) : Prop := str_le a b = true.

#[global] Instance str_le_rel_dec : RelDecision str_le_rel :=
  fun a b => decide (str_le a b = true).

(** [sorted(names)] for a set of strings: ascending order of the code
    points. *)
Definition py_sorted (names : gset pystr) : list pystr :=
  merge_sort str_le_rel (elements names).

Definition PREFIXES : pystr :=
  py "@prefix ag: <http://w3id.org/sawgraph/v1/ag#> ." ++ [newline]
  ++ py "@prefix kwgr: <http://w3id.org/sawgraph/v1/kwgr#> ." ++ [newline]
  ++ py "@prefix owl: <http://www.w3.org/2002/07/owl#> ." ++ [newline]
  ++ py "@prefix rdfs: <http://www.w3.org/2000/01/rdf-schema#> ." ++ [newline]
  ++ py "@prefix xsd: <http://www.w3.org/2001/XMLSchema#> ." ++ [newline] ++ [newline].

(** The declaration of a category, lines 32-34; its first line is
    [category_head]. *)
Definition category_head (category : pystr) : pystr :=
  py "ag:cropCategory." ++ category ++ py " a ag:cropCategory,".

Definition category_lines (category : pystr) : list pystr :=
  [category_head category;
   py "        owl:NamedIndividual ;";
   py "    rdfs:label " ++ [dquote] ++ py "Crop Category for " ++ category
   ++ [dquote] ++ py "^^xsd:string ." ++ [newline]].

(** The declaration of a subcategory, lines 38-40. *)
Definition subcategory_head (subcat : pystr) : pystr :=
  py "ag:cropSubCategory." ++ subcat ++ py " a ag:cropSubCategory,".

Definition subcategory_lines (subcat : pystr) : list pystr :=
  [subcategory_head subcat;
   py "        owl:NamedIndividual ;";
   py "    rdfs:label " ++ [dquote] ++ py "Crop Sub Category for " ++ subcat
   ++ [dquote] ++ py "^^xsd:string ." ++ [newline]].

(** The class definitions, lines 43-48. *)
Definition CLASS_LINES : list pystr :=
  [py "ag:cropCategory rdf:type owl:Class ;";
   py "                         rdfs:label " ++ [dquote] ++ py "Crop Category"
   ++ [dquote] ++ py " ." ++ [newline];
   py "ag:cropSubCategory rdf:type owl:Class ;";
   py "                         rdfs:label " ++ [dquote] ++ py "Crop Sub-Category"
   ++ [dquote] ++ py " ;";
   [tab] ++ [tab] ++ py "   rdfs:subClassOf ag:cropCategory ." ++ [newline]].

(** [sep.join(l)]. *)
Fixpoint str_join (sep : pystr) (l : list pystr) : pystr :=
  match l with
  | [] => []
  | x :: l' =>
      match l' with
      | [] => x
      | _ => x ++ sep ++ str_join sep l'
      end
  end.

(** The relation of a row to a category or a subcategory, lines 64-67. *)
Definition relation (prefix : pystr) (name : option pystr) : list pystr :=
  match name with
  | Some (c :: s) => [prefix ++ remove_spaces (c :: s)]
  | _ => []
  end.

Definition HAS_CATEGORY : pystr := py "ag:hasCropCategory ag:cropCategory.".
Definition HAS_SUBCATEGORY : pystr := py "ag:hasCropSubCategory ag:cropSubCategory.".
Definition PROPERTY : pystr := py "kwgr:croplandObservableProperty.".
Definition RELATION_SEP : pystr :=
  py " ;" ++ [newline] ++ py "                                 ".

(** The body of the second loop, lines 52-71: the triple of the row, if it
    gets one. *)
Definition row_line (r : list cell) : option (option pystr) :=
  c ← r !! 0;
  let obs_id := py_strip (cell_str c) in
  crop_category ← optional_field r 2;
  crop_subcategory ← optional_field r 3;
  Some (match obs_id with
        | [] => None
        | _ =>
            match relation HAS_CATEGORY crop_category
                  ++ relation HAS_SUBCATEGORY crop_subcategory with
            | [] => None
            | relations =>
                Some (PROPERTY ++ obs_id ++ py " "
                      ++ str_join RELATION_SEP relations ++ py " ." ++ [newline])
            end
        end).

(** The list [triples] at line 73. *)
Definition triplify (df : list (list cell)) : option (list pystr) :=
  names ← collect_names df ∅ ∅;
  rows ← mapM row_line df;
  Some ([PREFIXES]
        ++ flat_map category_lines (py_sorted names.1)
        ++ flat_map subcategory_lines (py_sorted names.2)
        ++ CLASS_LINES
        ++ omap id rows).

(** The text written to [crop_triples.ttl], line 75. *)
Definition crop_triples_ttl (df : list (list cell)) : option pystr :=
  str_join [newline] <$> triplify df.

(** The names that the rows give at position [k]. *)
Definition named (k : nat) (df : list (list cell)) (x : pystr) : Prop :=
  exists r v, r ∈ df /\ optional_field r k = Some (Some v) /\ v <> []
              /\ x = remove_spaces v.

(** ** Line 11 as it can fail, and further notions for the sweep *)

(** What the disk answers to the [mkdir] of line 11: the directory is there
    afterwards, or the call raises an [OSError] (a component of the path is
    a regular file, or may not be written) after it has made the first
    [made] components of the path. *)
Inductive mkdir_answer :=
| MkdirDone
| MkdirRaises (made : nat) (msg : pystr).

(** The part of [p] that a failing [mkdir] of [p] has made: never all of it. *)
Definition made_before_failure (made : nat) (p : path) : path :=
  take (Nat.min made (length p - 1)) p.

(** One invocation of the script, with the error path of line 11: when the
    [mkdir] raises, the module body ends there with the exception. [script]
    is the invocation in which line 11 passes. *)
Definition invocation (a : mkdir_answer) (E : env) (argv : list pystr) : Py unit :=
  match a with
  | MkdirDone => script E argv
  | MkdirRaises made msg =>
      fun w =>
        (Raised (OSError msg),
         {| trace := trace w;
            dirs := dirs w
                    ∪ list_to_set (with_parents (made_before_failure made (OUT_DIR E)));
            files := files w |})
  end.

(** The write that the loop attempts for a county, given the answer of the
    service and the answer of the disk: none unless the answer is accepted. *)
Definition wrote (E : env) (x : (pystr * pystr) * (post_result * bool))
  : option (path * pystr * bool) :=
  ttl_text ← accepted x.2.1; Some (out_path E x.1, ttl_text, x.2.2).

(** A service on which the extraction of the first county fails with status
    500 and the extraction of every other county succeeds. *)
Definition flaky_service : env :=
  {| home := [py "home"; py "user"];
     net := fun _ rq =>
       if bool_decide (req_accept rq = ACCEPT_JSON)
       then ok_response [] (Some (mk_doc two_counties))
       else if bool_decide (req_query rq = construct_for_county IRI_23001)
            then PostReturned {| status_code := 500; text := py "Internal Server Error";
                                 json_body := None |}
            else ok_response TURTLE_DOC None;
     disk_ok := fun _ _ _ => true |}.

(** * Properties *)

(** ** Slugs *)

Example safe_filename_androscoggin :
  safe_filename (py "Androscoggin County, Maine") = py "androscoggin_county_maine".
Proof. reflexivity. Qed.

Example safe_filename_amp :
  safe_filename (py "  Tom & Jerry's -- Farm__2 ") = py "tom_and_jerry_s_farm_2".
Proof. reflexivity. Qed.

Example safe_filename_empty : safe_filename (py " ,, ") = py "unknown_county".
Proof. reflexivity. Qed.

Example extract_fips_23001 :
  extract_fips_from_iri
    (py "http://stko-kwg.geog.ucsb.edu/lod/resource/administrativeRegion.USA.23001")
  = py "23001".
Proof. reflexivity. Qed.

Example extract_fips_none :
  extract_fips_from_iri (py "kwgr:...USA.23001") = py "unknown".
Proof. reflexivity. Qed.

Lemma alnum_not_underscore c : is_lower_alnum c = true -> is_underscore c = false.
Proof. all_chars c. Qed.

Lemma slug_char_not_space c : slug_char c = true -> py_isspace c = false.
Proof. all_chars c. Qed.

Lemma slug_char_lower c : slug_char c = true -> lower_char c = c.
Proof. all_chars c. Qed.

Lemma slug_char_not_amp c : slug_char c = true -> c <> ampersand.
Proof. all_chars c. Qed.

Lemma slug_char_class c : slug_char c = true -> not_lower_alnum c = is_underscore c.
Proof. all_chars c. Qed.

Lemma is_underscore_eq c : is_underscore c = true -> c = underscore.
Proof. unfold is_underscore. intros H. by apply bool_decide_eq_true in H. Qed.

(** ** Stripping *)

Lemma drop_while_suffix p s : exists y, s = y ++ drop_while p s.
Proof.
  induction s as [|c s [y IH]]; simpl.
  - by exists [].
  - destruct (p c).
    + exists (c :: y). simpl. by rewrite <- IH.
    + by exists [].
Qed.

Lemma drop_while_idem p s : drop_while p (drop_while p s) = drop_while p s.
Proof.
  induction s as [|c s IH]; simpl; [done|].
  destruct (p c) eqn:Hc; [done|]. simpl. by rewrite Hc.
Qed.

Lemma drop_while_head p s c s' : drop_while p s = c :: s' -> p c = false.
Proof.
  induction s as [|a s IH]; simpl; [done|].
  destruct (p a) eqn:Ha; [done|]. intros [= <- <-]. done.
Qed.

Lemma drop_while_fix p c s : p c = false -> drop_while p (c :: s) = c :: s.
Proof. intros H. simpl. by rewrite H. Qed.

Lemma rstrip_by_prefix p s : exists z, s = rstrip_by p s ++ z.
Proof.
  unfold rstrip_by. destruct (drop_while_suffix p (rev s)) as [y Hy].
  exists (rev y). rewrite <- rev_app_distr, <- Hy. by rewrite rev_involutive.
Qed.

Lemma strip_by_idem p s : strip_by p (strip_by p s) = strip_by p s.
Proof.
  unfold strip_by, lstrip_by.
  set (u := drop_while p s).
  assert (Hl : drop_while p (rstrip_by p u) = rstrip_by p u).
  { destruct (rstrip_by_prefix p u) as [z Hz].
    destruct (rstrip_by p u) as [|c r] eqn:Hr; [done|].
    apply drop_while_fix.
    assert (Hu : drop_while p s = c :: (r ++ z)) by (fold u; by rewrite Hz).
    by apply drop_while_head in Hu. }
  rewrite Hl. unfold rstrip_by. rewrite rev_involutive.
  by rewrite drop_while_idem.
Qed.

Lemma drop_while_none p s : Forall (fun c => p c = false) s -> drop_while p s = s.
Proof. destruct 1 as [|c s Hc _]; [done|]. by apply drop_while_fix. Qed.

Lemma strip_by_none p s : Forall (fun c => p c = false) s -> strip_by p s = s.
Proof.
  intros H. unfold strip_by, lstrip_by, rstrip_by.
  rewrite (drop_while_none p s H).
  rewrite drop_while_none; [apply rev_involutive|].
  apply Forall_forall. intros c Hc. rewrite Forall_forall in H. apply H.
  apply list_elem_of_In. apply list_elem_of_In in Hc. by apply in_rev.
Qed.

(** ** Tidy strings *)

Lemma tidy_weaken s : tidy true s = true -> tidy false s = true.
Proof.
  destruct s as [|c s]; simpl; [done|].
  destruct (is_underscore c); simpl; [discriminate|done].
Qed.

Lemma tidy_app b x y : tidy b (x ++ y) = true -> tidy b x = true /\ tidy false y = true.
Proof.
  revert b. induction x as [|c x IH]; intros b; simpl.
  - intros H. split; [done|]. destruct b; [by apply tidy_weaken|done].
  - destruct (is_underscore c).
    + intros [Hb H]%andb_prop. apply IH in H as [? ?]. rewrite Hb. by split.
    + intros [Hb H]%andb_prop. apply IH in H as [? ?]. rewrite Hb. by split.
Qed.

Lemma tidy_slug_chars b s : tidy b s = true -> Forall (fun c => slug_char c = true) s.
Proof.
  revert b. induction s as [|c s IH]; intros b; simpl; [constructor|].
  destruct (is_underscore c) eqn:Hu.
  - intros [_ H]%andb_prop.
    constructor; [unfold slug_char; by rewrite Hu, orb_true_r|by eapply IH].
  - intros [Ha H]%andb_prop.
    constructor; [unfold slug_char; by rewrite Ha|by eapply IH].
Qed.

(** The first substitution of [safe_filename] yields a tidy string. *)
Lemma re_sub_not_alnum_tidy b s : tidy b (re_sub_scan not_lower_alnum b s) = true.
Proof.
  revert b. induction s as [|c s IH]; intros b; simpl; [done|].
  unfold not_lower_alnum at 1. destruct (is_lower_alnum c) eqn:Ha; simpl.
  - rewrite (alnum_not_underscore c Ha), Ha. apply IH.
  - destruct b; [apply IH|]. simpl. apply IH.
Qed.

(** On a tidy string a run substitution changes nothing, for every class
    that contains, among the characters [a-z0-9_], the underscore only. *)
Lemma re_sub_scan_tidy cls b s :
  (forall c, slug_char c = true -> cls c = is_underscore c) ->
  tidy b s = true -> re_sub_scan cls b s = s.
Proof.
  intros Hcls. revert b. induction s as [|c s IH]; intros b; simpl; [done|].
  destruct (is_underscore c) eqn:Hu.
  - intros [Hb H]%andb_prop. rewrite Hcls, Hu by (unfold slug_char; by rewrite Hu, orb_true_r).
    destruct b; [discriminate|]. rewrite (IH true H).
    by rewrite (is_underscore_eq c Hu).
  - intros [Ha H]%andb_prop. rewrite Hcls, Hu by (unfold slug_char; by rewrite Ha).
    by rewrite (IH false H).
Qed.

Lemma strip_by_tidy p s : tidy false s = true -> tidy false (strip_by p s) = true.
Proof.
  intros H. unfold strip_by, lstrip_by.
  destruct (drop_while_suffix p s) as [y Hy].
  rewrite Hy in H. apply tidy_app in H as [_ H].
  destruct (rstrip_by_prefix p (drop_while p s)) as [z Hz].
  rewrite Hz in H. by apply tidy_app in H as [H _].
Qed.

Lemma replace_amp_none s : Forall (fun c => c <> ampersand) s -> replace_amp s = s.
Proof.
  induction 1 as [|c s Hc _ IH]; simpl; [done|].
  rewrite bool_decide_eq_false_2 by done. by rewrite IH.
Qed.

Lemma py_lower_fixed s : Forall (fun c => lower_char c = c) s -> py_lower s = s.
Proof. induction 1 as [|c s Hc _ IH]; simpl; [done|]. by rewrite Hc, IH. Qed.

Lemma slug_core_tidy s : tidy false (slug_core s) = true.
Proof.
  unfold slug_core. apply strip_by_tidy.
  unfold re_sub_runs at 1. rewrite re_sub_scan_tidy; [| |apply re_sub_not_alnum_tidy].
  - apply re_sub_not_alnum_tidy.
  - intros c Hc. done.
Qed.

Lemma slug_core_stripped s : strip_by is_underscore (slug_core s) = slug_core s.
Proof. unfold slug_core. apply strip_by_idem. Qed.

(** A tidy string without an underscore at either end is left as it is. *)
Lemma slug_core_fixed r :
  tidy false r = true -> strip_by is_underscore r = r -> slug_core r = r.
Proof.
  intros Ht Hs. pose proof (tidy_slug_chars _ _ Ht) as Hall.
  unfold slug_core, py_strip.
  rewrite (strip_by_none py_isspace r)
    by (eapply Forall_impl; [exact Hall|]; intros c Hc; by apply slug_char_not_space).
  rewrite (py_lower_fixed r)
    by (eapply Forall_impl; [exact Hall|]; intros c Hc; by apply slug_char_lower).
  rewrite (replace_amp_none r)
    by (eapply Forall_impl; [exact Hall|]; intros c Hc; by apply slug_char_not_amp).
  unfold re_sub_runs.
  rewrite (re_sub_scan_tidy not_lower_alnum false r) by (auto using slug_char_class).
  rewrite (re_sub_scan_tidy is_underscore false r) by auto.
  exact Hs.
Qed.

Lemma safe_filename_core s :
  safe_filename s = match slug_core s with [] => FALLBACK_SLUG | _ => slug_core s end.
Proof. reflexivity. Qed.

Lemma safe_filename_tidy s : tidy false (safe_filename s) = true.
Proof.
  rewrite safe_filename_core. pose proof (slug_core_tidy s) as H.
  destruct (slug_core s); [reflexivity|exact H].
Qed.

Lemma safe_filename_fixed s : safe_filename (safe_filename s) = safe_filename s.
Proof.
  rewrite (safe_filename_core s).
  pose proof (slug_core_tidy s) as Ht. pose proof (slug_core_stripped s) as Hs.
  destruct (slug_core s) as [|c r] eqn:Hcore; [reflexivity|].
  rewrite safe_filename_core, (slug_core_fixed _ Ht Hs). reflexivity.
Qed.

(** C5: [safe_filename] is a total function that is idempotent; every
    character of its result is in the class [a-z0-9_] (the result matches
    ^[a-z0-9_]*$) or the result is the fallback token, and the character &
    never occurs in it. *)
Theorem safe_filename_idempotent_slug (x : pystr) :
  safe_filename (safe_filename x) = safe_filename x
  /\ (forallb slug_char (safe_filename x) = true \/ safe_filename x = FALLBACK_SLUG)
  /\ ampersand ∉ safe_filename x.
Proof.
  pose proof (tidy_slug_chars _ _ (safe_filename_tidy x)) as Hall.
  split; [apply safe_filename_fixed|]. split.
  - left. apply forallb_forall. intros c Hc. rewrite Forall_forall in Hall.
    apply Hall. by apply list_elem_of_In.
  - intros Hin. rewrite Forall_forall in Hall.
    by apply (slug_char_not_amp _ (Hall _ Hin)).
Qed.

(** ** The suffix pattern *)

Lemma startswith_app p t : startswith p (p ++ t) = true.
Proof.
  induction p as [|a p IH]; simpl; [done|].
  by rewrite bool_decide_eq_true_2, IH.
Qed.

Lemma startswith_split p s : startswith p s = true -> s = p ++ drop (length p) s.
Proof.
  revert s. induction p as [|a p IH]; intros [|b s]; simpl; try done.
  intros [Hab H]%andb_prop. apply bool_decide_eq_true in Hab as ->.
  by rewrite <- (IH s H).
Qed.

Lemma endswith_split p s : endswith p s = true -> exists pre, s = pre ++ p.
Proof.
  unfold endswith. intros H%startswith_split.
  exists (rev (drop (length (rev p)) (rev s))).
  rewrite <- (rev_involutive p) at 2. rewrite <- rev_app_distr, <- H.
  by rewrite rev_involutive.
Qed.

Lemma endswith_app pre p : endswith p (pre ++ p) = true.
Proof. unfold endswith. rewrite rev_app_distr. apply startswith_app. Qed.

Lemma take_while_split p s :
  s = take_while p s ++ drop (length (take_while p s)) s.
Proof.
  induction s as [|c s IH]; simpl; [done|].
  destruct (p c); simpl; [by rewrite <- IH|done].
Qed.

Lemma take_while_all p d e :
  Forall (fun c => p c = true) d ->
  (match e with [] => True | c :: _ => p c = false end) ->
  take_while p (d ++ e) = d.
Proof.
  intros Hd He. induction Hd as [|c d Hc _ IH]; simpl.
  - destruct e as [|c e]; simpl; [done|]. by rewrite He.
  - by rewrite Hc, IH.
Qed.

Lemma take_while_Forall p s : Forall (fun c => p c = true) (take_while p s).
Proof.
  induction s as [|c s IH]; simpl; [constructor|].
  destruct (p c) eqn:Hc; by constructor.
Qed.

Lemma newline_not_digit : is_digit newline = false.
Proof. reflexivity. Qed.

Lemma at_dollar_cases e : at_dollar e = true -> e = [] \/ e = [newline].
Proof.
  destruct e as [|c [|c' e]]; simpl; try done; [by left|].
  intros H%bool_decide_eq_true. right. by subst.
Qed.

Lemma at_dollar_head e :
  at_dollar e = true -> match e with [] => True | c :: _ => is_digit c = false end.
Proof. intros [->| ->]%at_dollar_cases; done. Qed.

Lemma at_dollar_digit c e : is_digit c = true -> at_dollar (c :: e) = false.
Proof.
  intros Hc. destruct (at_dollar (c :: e)) eqn:H; [|done].
  apply at_dollar_head in H. congruence.
Qed.

(** Inside the digit run the end-of-string assertion fails, so giving back
    digits never helps. *)
Lemma drop_inside_run r i :
  i < length (take_while is_digit r) -> at_dollar (drop i r) = false.
Proof.
  revert i. induction r as [|c r IH]; intros i; simpl; [lia|].
  destruct (is_digit c) eqn:Hc; simpl; [|lia].
  destruct i as [|i]; simpl.
  - intros _. by apply at_dollar_digit.
  - intros Hi. apply IH. lia.
Qed.

Lemma digits_then_dollar_None r j :
  (forall i, 0 < i <= j -> at_dollar (drop i r) = false) ->
  digits_then_dollar j r = None.
Proof.
  induction j as [|j IH]; intros H; simpl; [done|].
  rewrite (H (S j)) by lia. apply IH. intros i Hi. apply H. lia.
Qed.

Lemma digits_then_dollar_run r n :
  n = length (take_while is_digit r) ->
  digits_then_dollar n r =
    if (0 <? n) && at_dollar (drop n r) then Some (take n r) else None.
Proof.
  intros Hn. destruct n as [|m]; simpl; [done|].
  destruct (at_dollar (drop (S m) r)); [done|].
  apply digits_then_dollar_None. intros i Hi. apply drop_inside_run. lia.
Qed.

Lemma match_here_sound s d :
  match_here s = Some d ->
  exists e, s = REGION_PREFIX ++ d ++ e /\ d <> [] /\ all_digits d /\ at_dollar e = true.
Proof.
  unfold match_here. destruct (startswith REGION_PREFIX s) eqn:Hp; [|done].
  apply startswith_split in Hp. set (r := drop (length REGION_PREFIX) s) in *.
  rewrite (digits_then_dollar_run r _ eq_refl).
  destruct (0 <? length (take_while is_digit r)) eqn:Hn; simpl; [|done].
  destruct (at_dollar (drop (length (take_while is_digit r)) r)) eqn:He; [|done].
  intros [= <-]. exists (drop (length (take_while is_digit r)) r).
  assert (Hd : take (length (take_while is_digit r)) r = take_while is_digit r).
  { rewrite (take_while_split is_digit r) at 2. by rewrite take_app_length. }
  rewrite Hd. split; [|split; [|split]].
  - rewrite <- take_while_split. exact Hp.
  - intros H0. rewrite H0 in Hn. done.
  - apply take_while_Forall.
  - done.
Qed.

Lemma match_here_complete d e :
  d <> [] -> all_digits d -> at_dollar e = true ->
  match_here (REGION_PREFIX ++ d ++ e) = Some d.
Proof.
  intros Hne Hd He. unfold match_here.
  rewrite startswith_app, drop_app_length.
  rewrite (digits_then_dollar_run (d ++ e) _ eq_refl).
  rewrite (take_while_all is_digit d e Hd (at_dollar_head e He)).
  rewrite drop_app_length, take_app_length, He.
  destruct d; [done|reflexivity].
Qed.

Lemma re_search_fips_sound s d :
  re_search_fips s = Some d ->
  exists pre e, s = pre ++ REGION_PREFIX ++ d ++ e
                /\ d <> [] /\ all_digits d /\ at_dollar e = true.
Proof.
  induction s as [|c s IH].
  - cbn [re_search_fips]. destruct (match_here []) eqn:Hm; [|done].
    intros [= ->]. apply match_here_sound in Hm as (e & ? & ?). by exists [], e.
  - cbn [re_search_fips]. destruct (match_here (c :: s)) eqn:Hm.
    + intros [= ->]. apply match_here_sound in Hm as (e & ? & ?). by exists [], e.
    + intros (pre & e & -> & ?)%IH. by exists (c :: pre), e.
Qed.

(** The digit run is determined by the string. *)
Lemma chomp_decomposed x d e :
  d <> [] -> all_digits d -> at_dollar e = true -> chomp (x ++ d ++ e) = x ++ d.
Proof.
  intros Hne Hd [->| ->]%at_dollar_cases; unfold chomp.
  - rewrite app_nil_r. destruct (rev (x ++ d)) as [|c r] eqn:Hr; [done|].
    rewrite bool_decide_eq_false_2; [done|]. intros ->.
    assert (Hin : newline ∈ d).
    { destruct d as [|a d] using rev_ind; [done|].
      rewrite app_assoc, rev_app_distr in Hr. simpl in Hr. injection Hr as -> _.
      set_solver. }
    unfold all_digits in Hd. rewrite Forall_forall in Hd.
    specialize (Hd _ Hin). by rewrite newline_not_digit in Hd.
  - rewrite app_assoc, rev_app_distr. simpl.
    apply rev_involutive.
Qed.

Lemma trailing_digits_decomposed a c d :
  is_digit c = false -> all_digits d -> trailing_digits (a ++ c :: d) = d.
Proof.
  intros Hc Hd. unfold trailing_digits.
  rewrite rev_app_distr. simpl. rewrite <- app_assoc. simpl.
  rewrite take_while_all; [apply rev_involutive| |done].
  apply Forall_forall. intros y Hy. unfold all_digits in Hd.
  rewrite Forall_forall in Hd. apply Hd.
  apply list_elem_of_In. apply list_elem_of_In in Hy. by apply in_rev.
Qed.

Lemma REGION_PREFIX_dot :
  REGION_PREFIX = py "administrativeRegion.USA" ++ ["."%char].
Proof. reflexivity. Qed.

Lemma digits_of_match pre d e :
  d <> [] -> all_digits d -> at_dollar e = true ->
  trailing_digits (chomp (pre ++ REGION_PREFIX ++ d ++ e)) = d.
Proof.
  intros Hne Hd He.
  rewrite (app_assoc pre), chomp_decomposed by done.
  rewrite REGION_PREFIX_dot, <- !app_assoc. simpl "++" at 3.
  rewrite (app_assoc pre). by apply trailing_digits_decomposed.
Qed.

Lemma re_search_fips_here s d : match_here s = Some d -> re_search_fips s = Some d.
Proof. intros H. destruct s; cbn [re_search_fips]; by rewrite H. Qed.

Lemma re_search_fips_complete pre d e :
  d <> [] -> all_digits d -> at_dollar e = true ->
  re_search_fips (pre ++ REGION_PREFIX ++ d ++ e) = Some d.
Proof.
  intros Hne Hd He.
  assert (Hhere : forall s d', trailing_digits (chomp s) = d ->
                               match_here s = Some d' -> d' = d).
  { intros s d' Hs (e' & -> & ? & ? & ?)%match_here_sound.
    rewrite <- Hs. symmetry. by apply (digits_of_match []). }
  induction pre as [|c pre IH].
  - rewrite app_nil_l. apply re_search_fips_here. by apply match_here_complete.
  - rewrite <- app_comm_cons. cbn [re_search_fips].
    destruct (match_here (c :: pre ++ REGION_PREFIX ++ d ++ e)) as [d'|] eqn:Hm.
    + f_equal. apply (Hhere _ _ (digits_of_match (c :: pre) d e Hne Hd He) Hm).
    + exact IH.
Qed.

Lemma trailing_digits_split s :
  s = take (length s - length (trailing_digits s)) s ++ trailing_digits s.
Proof.
  unfold trailing_digits.
  pose proof (take_while_split is_digit (rev s)) as H.
  apply (f_equal (@rev ascii)) in H. rewrite rev_involutive, rev_app_distr in H.
  set (d := rev (take_while is_digit (rev s))) in *.
  set (x := rev (drop _ (rev s))) in *.
  rewrite H at 2 3. rewrite length_app.
  replace (length x + length d - length d) with (length x) by lia.
  by rewrite take_app_length.
Qed.

Lemma chomp_split s : exists e, s = chomp s ++ e /\ at_dollar e = true.
Proof.
  unfold chomp. destruct (rev s) as [|c r] eqn:Hr.
  - exists []. by rewrite app_nil_r.
  - destruct (bool_decide (c = newline)) eqn:Hc.
    + apply bool_decide_eq_true in Hc as ->. exists [newline]. split; [|done].
      rewrite <- (rev_involutive s), Hr. done.
    + exists []. by rewrite app_nil_r.
Qed.

Lemma trailing_digits_all s : all_digits (trailing_digits s).
Proof.
  unfold trailing_digits, all_digits. apply Forall_forall. intros c Hc.
  pose proof (take_while_Forall is_digit (rev s)) as H.
  rewrite Forall_forall in H. apply H.
  apply list_elem_of_In. apply list_elem_of_In in Hc. by apply in_rev in Hc.
Qed.

(** C6 (amended): [extract_fips_from_iri] is a total function; on every
    identifier it returns the trailing digit run when the identifier, with at
    most one final newline removed, ends with the region prefix followed by
    one or more digits, and the unknown token otherwise. *)
Theorem extract_fips_from_iri_suffix_pattern (county_iri : pystr) :
  extract_fips_from_iri county_iri = code_of_suffix (chomp county_iri)
  /\ (forall pre d e,
        county_iri = pre ++ REGION_PREFIX ++ d ++ e ->
        d <> [] -> all_digits d -> e = [] \/ e = [newline] ->
        extract_fips_from_iri county_iri = d)
  /\ ((~ exists pre d e,
          county_iri = pre ++ REGION_PREFIX ++ d ++ e
          /\ d <> [] /\ all_digits d /\ (e = [] \/ e = [newline])) ->
      extract_fips_from_iri county_iri = UNKNOWN_CODE).
Proof.
  split; [|split].
  - unfold extract_fips_from_iri.
    destruct (re_search_fips county_iri) as [d|] eqn:Hs.
    + apply re_search_fips_sound in Hs as (pre & e & -> & Hne & Hd & He).
      unfold code_of_suffix. rewrite (digits_of_match pre d e Hne Hd He).
      rewrite (app_assoc pre), chomp_decomposed by done.
      rewrite <- app_assoc, !length_app.
      replace (length pre + (length REGION_PREFIX + length d) - length d)
        with (length (pre ++ REGION_PREFIX)) by (rewrite length_app; lia).
      rewrite app_assoc, take_app_length, endswith_app.
      by destruct d.
    + unfold code_of_suffix.
      set (s := chomp county_iri).
      destruct (trailing_digits s) as [|c d] eqn:Hd; [done|].
      destruct (endswith REGION_PREFIX (take (length s - length (c :: d)) s)) eqn:Hp;
        [|done].
      exfalso. apply endswith_split in Hp as [pre Hpre].
      destruct (chomp_split county_iri) as (e & Hsplit & He). fold s in Hsplit.
      pose proof (trailing_digits_split s) as Hs'. rewrite Hd, Hpre in Hs'.
      pose proof (trailing_digits_all s) as Hall. rewrite Hd in Hall.
      rewrite Hsplit, Hs', <- !app_assoc in Hs.
      rewrite (re_search_fips_complete pre (c :: d) e) in Hs; done.
  - intros pre d e -> Hne Hd He. unfold extract_fips_from_iri.
    rewrite (re_search_fips_complete pre d e); [done..|].
    by destruct He as [-> | ->].
  - intros Hno. unfold extract_fips_from_iri.
    destruct (re_search_fips county_iri) as [d|] eqn:Hs; [|done].
    exfalso. apply Hno.
    apply re_search_fips_sound in Hs as (pre & e & -> & Hne & Hd & He).
    exists pre, d, e. repeat split; try done. by apply at_dollar_cases.
Qed.

Lemma extract_fips_from_iri_suffix_pattern_witness :
  extract_fips_from_iri
    (py "http://stko-kwg.geog.ucsb.edu/lod/resource/" ++ REGION_PREFIX ++ py "23001" ++ [])
  = py "23001".
Proof.
  apply (proj1 (proj2 (extract_fips_from_iri_suffix_pattern _))
           (py "http://stko-kwg.geog.ucsb.edu/lod/resource/") (py "23001") []).
  - reflexivity.
  - discriminate.
  - repeat constructor.
  - by left.
Defined.

(** ** Stepping through the monad *)

Lemma bind_Returned {A B} (m : Py A) (f : A -> Py B) w a w' :
  m w = (Returned a, w') -> (m ≫= f) w = f a w'.
Proof. intros H. py_unfold. by rewrite H. Qed.

Lemma bind_Raised {A B} (m : Py A) (f : A -> Py B) w e w' :
  m w = (Raised e, w') -> (m ≫= f) w = (Raised e, w').
Proof. intros H. py_unfold. by rewrite H. Qed.

Lemma bind_Exited {A B} (m : Py A) (f : A -> Py B) w c w' :
  m w = (Exited c, w') -> (m ≫= f) w = (Exited c, w').
Proof. intros H. py_unfold. by rewrite H. Qed.

(** ** The enumeration *)

Lemma getitem_pure {V} (d : gmap string V) key w :
  getitem d key w = (match d !! key with
                     | Some v => Returned v
                     | None => Raised (KeyError key)
                     end, w).
Proof. unfold getitem. by destruct (d !! key). Qed.

Lemma county_of_binding_pure b w :
  exists o, county_of_binding b w = (o, w)
            /\ (forall c, o <> Exited c)
            /\ (forall p, binding_pair b = Some p -> o = Returned p).
Proof.
  unfold county_of_binding, binding_pair. py_unfold. rewrite !getitem_pure.
  destruct (b !! "county") as [c|]; simpl; [|by eexists].
  rewrite getitem_pure. destruct (c !! "value") as [iri|]; simpl; [|by eexists].
  rewrite getitem_pure. destruct (b !! "label") as [l|]; simpl; [|by eexists].
  rewrite getitem_pure. destruct (l !! "value") as [label|]; simpl; [|by eexists].
  eexists. split; [done|]. split; [done|]. by intros p [= <-].
Qed.

Lemma collect_counties_pure bs w :
  exists o, collect_counties bs w = (o, w)
            /\ (forall c, o <> Exited c)
            /\ (forall cs, Forall2 (fun b p => binding_pair b = Some p) bs cs ->
                           o = Returned cs).
Proof.
  induction bs as [|b bs (o' & IH & Hne' & Hok')]; simpl.
  - eexists. split; [done|]. split; [done|]. by intros cs ->%Forall2_nil_inv_l.
  - destruct (county_of_binding_pure b w) as (o & Hb & Hne & Hok).
    destruct o as [p|e|c]; [| |by destruct (Hne c)].
    + rewrite (bind_Returned _ _ _ _ _ Hb).
      destruct o' as [cs|e|c]; [| |by destruct (Hne' c)].
      * rewrite (bind_Returned _ _ _ _ _ IH). eexists. split; [done|].
        split; [done|]. intros cs' (p' & cs'' & Hp & Hcs & ->)%Forall2_cons_inv_l.
        specialize (Hok _ Hp). specialize (Hok' _ Hcs). congruence.
      * rewrite (bind_Raised _ _ _ _ _ IH). eexists. split; [done|].
        split; [done|]. intros cs' (p' & cs'' & Hp & Hcs & ->)%Forall2_cons_inv_l.
        by specialize (Hok' _ Hcs).
    + rewrite (bind_Raised _ _ _ _ _ Hb). eexists. split; [done|].
      split; [done|]. intros cs' (p' & cs'' & Hp & Hcs & ->)%Forall2_cons_inv_l.
      by specialize (Hok _ Hp).
Qed.

Lemma raise_for_status_pure r w :
  raise_for_status r w =
    (if error_status (status_code r)
     then Raised (HTTPError (status_code r) (text r)) else Returned tt, w).
Proof. unfold raise_for_status, error_status. by destruct (_ && _). Qed.

(** The enumeration sends one request and touches nothing else; it never
    leaves through [sys.exit]. *)
Lemma get_maine_counties_frame E w :
  exists o, get_maine_counties E w =
              (o, emit (EPost (select_request COUNTIES_QUERY)
                         (net E (now w) (select_request COUNTIES_QUERY))) w)
            /\ (forall c, o <> Exited c).
Proof.
  unfold get_maine_counties, run_select, post.
  set (rq := select_request COUNTIES_QUERY).
  destruct (net E (now w) rq) as [e|r] eqn:Hnet.
  - py_unfold. rewrite Hnet. by eexists.
  - set (w1 := emit _ w).
    assert (Hpost : post E rq w = (Returned r, w1)).
    { unfold post. by rewrite Hnet. }
    unfold post in Hpost. py_unfold. rewrite Hnet in *. fold (emit (EPost rq (PostReturned r)) w).
    rewrite raise_for_status_pure.
    destruct (error_status (status_code r)); [by eexists|].
    unfold resp_json. destruct (json_body r) as [data|]; [|by eexists].
    py_unfold. rewrite getitem_pure.
    destruct (data !! "results") as [res|]; [|by eexists].
    rewrite getitem_pure.
    destruct (res !! "bindings") as [bs|]; [|by eexists].
    destruct (collect_counties_pure bs w1) as (o & Hc & Hne & _).
    exists o. split; [|done]. exact Hc.
Qed.

(** ** One county *)

Lemma advance_advance w evs1 evs2 :
  advance (advance w evs1) evs2 = advance w (evs1 ++ evs2).
Proof.
  unfold advance, apply_writes. simpl. by rewrite app_assoc, !foldl_app.
Qed.

Lemma advance_nil w : advance w [] = w.
Proof. destruct w. unfold advance. simpl. by rewrite app_nil_r. Qed.

Lemma emit_advance ev w :
  (forall p c, ev <> EWrite p c true) -> (forall p, ev <> EMkdir p) ->
  emit ev w = advance w [ev].
Proof.
  intros H H'. unfold emit, advance, apply_writes. simpl.
  destruct ev as [p| |p c []| |]; try done.
  - by destruct (H' p).
  - by destruct (H p c).
Qed.

Lemma mkdir_p_spec p w : mkdir_p p w = (Returned tt, advance w [EMkdir p]).
Proof. reflexivity. Qed.

Lemma run_construct_spec E q w :
  let res := net E (now w) (construct_request q) in
  run_construct E q w =
    (match construct_outcome res with
     | inl ttl_text => Returned ttl_text
     | inr e => Raised e
     end, advance w [EPost (construct_request q) res]).
Proof.
  intros res. unfold run_construct, post. py_unfold. fold res.
  rewrite <- (emit_advance (EPost (construct_request q) res) w) by done.
  unfold emit. destruct res as [e|r]; simpl; [done|].
  rewrite raise_for_status_pure. by destruct (error_status (status_code r)).
Qed.

Lemma write_text_spec E p content w :
  write_text E p content w =
    (if disk_ok E (now w) p content then Returned tt
     else Raised (OSError (py "write_text")),
     advance w [EWrite p content (disk_ok E (now w) p content)]).
Proof. unfold write_text, advance, emit. by destruct (disk_ok _ _ _ _). Qed.

Lemma print_spec m w : print m w = (Returned tt, advance w [EPrint m]).
Proof. unfold print. by rewrite emit_advance. Qed.

Lemma sleep_spec ms w : sleep ms w = (Returned tt, advance w [ESleep ms]).
Proof. unfold sleep. by rewrite emit_advance. Qed.

Lemma now_advance w evs : now (advance w evs) = now w + length evs.
Proof. unfold now, advance. simpl. by rewrite length_app. Qed.

Lemma files_after_write w evs p content :
  files (advance w (evs ++ [EWrite p content true])) !! p = Some content.
Proof.
  unfold advance, apply_writes. cbn [files]. rewrite foldl_app. simpl.
  apply lookup_insert_eq.
Qed.

(** The loop body, as a function of the two answers it receives. *)
Lemma export_county_spec E total i c w :
  let res := net E (S (now w)) (county_request c) in
  let ok := match classify res with
            | VAccepted ttl_text => disk_ok E (S (S (now w))) (out_path E c) ttl_text
            | _ => true
            end in
  export_county E total i c w =
    (if aborts (classify res) ok then Raised (OSError (py "write_text")) else Returned tt,
     advance w (segment E total i c res ok)).
Proof.
  destruct c as [iri label]. intros res ok. unfold export_county.
  rewrite (bind_Returned _ _ _ _ _ (print_spec _ w)).
  unfold try_except. unfold mbind at 1, Py_bind, py_bind.
  rewrite run_construct_spec, now_advance. simpl length.
  replace (now w + 1) with (S (now w)) by lia.
  change (construct_request (construct_for_county iri)) with (county_request (iri, label)).
  fold res. rewrite advance_advance.
  unfold segment, classify, ok, classify. simpl fst. simpl snd.
  destruct (construct_outcome res) as [ttl|e] eqn:Hres.
  - destruct (looks_like_html ttl) eqn:Hhtml.
    + rewrite print_spec, advance_advance. simpl. by rewrite <- ?app_assoc.
    + unfold mbind, Py_bind, py_bind. rewrite write_text_spec, now_advance.
      simpl length. replace (now w + 2) with (S (S (now w))) by lia.
      change (OUT_DIR E ++ [ttl_name label (extract_fips_from_iri iri)])
        with (out_path E (iri, label)).
      destruct (disk_ok E (S (S (now w))) (out_path E (iri, label)) ttl) eqn:Hok.
      * rewrite advance_advance. unfold stat_size.
        rewrite files_after_write.
        rewrite print_spec, advance_advance, sleep_spec, advance_advance.
        simpl. by rewrite <- ?app_assoc.
      * rewrite advance_advance. simpl. by rewrite <- ?app_assoc.
  - destruct e as [st body| | | |]; simpl.
    + rewrite (bind_Returned _ _ _ _ _ (print_spec _ _)), advance_advance.
      rewrite print_spec, advance_advance. by rewrite <- ?app_assoc.
    + rewrite print_spec, advance_advance. by rewrite <- ?app_assoc.
    + rewrite print_spec, advance_advance. by rewrite <- ?app_assoc.
    + rewrite print_spec, advance_advance. by rewrite <- ?app_assoc.
    + rewrite print_spec, advance_advance. by rewrite <- ?app_assoc.
Qed.

(** ** The sweep *)

Lemma export_loop_sweep E total cs :
  forall i w, exists evs o,
    sweep E total i cs evs o /\ export_loop E total i cs w = (o, advance w evs).
Proof.
  induction cs as [|c cs IH]; intros i w.
  - exists [], (Returned tt). split; [constructor|]. simpl. by rewrite advance_nil.
  - cbn [export_loop]. pose proof (export_county_spec E total i c w) as Hc.
    cbv zeta in Hc.
    set (res := net E (S (now w)) (county_request c)) in *.
    set (ok := match classify res with
               | VAccepted ttl_text => disk_ok E (S (S (now w))) (out_path E c) ttl_text
               | _ => true
               end) in *.
    assert (Hok : forall ttl_text, classify res = VAccepted ttl_text ->
                    ok = disk_ok E (S (S (now w))) (out_path E c) ttl_text).
    { intros ttl Hcl. unfold ok. by rewrite Hcl. }
    destruct (aborts (classify res) ok) eqn:Hab.
    + exists (segment E total i c res ok), (Raised (OSError (py "write_text"))).
      split; [by eapply sweep_abort|]. by rewrite (bind_Raised _ _ _ _ _ Hc).
    + destruct (IH (S i) (advance w (segment E total i c res ok))) as (evs & o & Hs & Hl).
      exists (segment E total i c res ok ++ evs), o.
      split; [by eapply sweep_next|].
      rewrite (bind_Returned _ _ _ _ _ Hc), Hl. by rewrite advance_advance.
Qed.

Lemma posts_of_app a b : posts_of (a ++ b) = posts_of a ++ posts_of b.
Proof. apply omap_app. Qed.
Lemma writes_of_app a b : writes_of (a ++ b) = writes_of a ++ writes_of b.
Proof. apply omap_app. Qed.
Lemma sleeps_of_app a b : sleeps_of (a ++ b) = sleeps_of a ++ sleeps_of b.
Proof. apply omap_app. Qed.
Lemma mkdirs_of_app a b : mkdirs_of (a ++ b) = mkdirs_of a ++ mkdirs_of b.
Proof. apply omap_app. Qed.
Lemma prints_of_app a b : prints_of (a ++ b) = prints_of a ++ prints_of b.
Proof. apply omap_app. Qed.

Lemma segment_posts E total i c res ok :
  posts_of (segment E total i c res ok) = [(county_request c, res)].
Proof. unfold segment. simpl. by destruct (classify res), ok. Qed.

Lemma segment_mkdirs E total i c res ok : mkdirs_of (segment E total i c res ok) = [].
Proof. unfold segment. simpl. by destruct (classify res), ok. Qed.

Lemma segment_writes E total i c res ok :
  writes_of (segment E total i c res ok) =
    match accepted res with
    | Some ttl_text => [(out_path E c, ttl_text, ok)]
    | None => []
    end.
Proof. unfold segment, accepted. simpl. by destruct (classify res), ok. Qed.

Lemma segment_sleeps E total i c res ok :
  sleeps_of (segment E total i c res ok) =
    match accepted res with
    | Some _ => if ok then [PAUSE_MS] else []
    | None => []
    end.
Proof. unfold segment, accepted. simpl. by destruct (classify res), ok. Qed.

Lemma accepted_not_html res ttl_text :
  accepted res = Some ttl_text -> looks_like_html ttl_text = false.
Proof.
  unfold accepted, classify. destruct (construct_outcome res) as [t|[]]; try done.
  destruct (looks_like_html t) eqn:H; [done|]. by intros [= <-].
Qed.

Lemma accepted_returned res ttl_text :
  accepted res = Some ttl_text ->
  exists r, res = PostReturned r /\ text r = ttl_text
            /\ error_status (status_code r) = false.
Proof.
  unfold accepted, classify, construct_outcome. destruct res as [e|r].
  - by destruct e.
  - destruct (error_status (status_code r)) eqn:Hst; [done|].
    destruct (looks_like_html (text r)); [done|]. intros [= <-]. by exists r.
Qed.

(** Nothing that looks like HTML is written by the sweep. *)
Lemma sweep_writes_not_html E total i cs evs o :
  sweep E total i cs evs o ->
  forall p content ok, (p, content, ok) ∈ writes_of evs -> looks_like_html content = false.
Proof.
  induction 1 as [i|i c cs t t' res ok evs o _ _ _ _ IH|i c cs t t' res ok _ _ _];
    intros p content b.
  - by intros ?%elem_of_nil.
  - rewrite writes_of_app, segment_writes. intros [Hin|Hin]%elem_of_app; [|by eapply IH].
    destruct (accepted res) as [ttl|] eqn:Hacc; [|by apply elem_of_nil in Hin].
    apply list_elem_of_singleton in Hin as [= -> -> ->]. by eapply accepted_not_html.
  - rewrite segment_writes.
    destruct (accepted res) as [ttl|] eqn:Hacc; [|by intros ?%elem_of_nil].
    intros [= -> -> ->]%list_elem_of_singleton. by eapply accepted_not_html.
Qed.

(** The sweep creates no directory. *)
Lemma sweep_mkdirs E total i cs evs o : sweep E total i cs evs o -> mkdirs_of evs = [].
Proof.
  induction 1 as [i|i c cs t t' res ok evs o _ _ _ _ IH|i c cs t t' res ok _ _ _].
  - done.
  - by rewrite mkdirs_of_app, segment_mkdirs, IH.
  - apply segment_mkdirs.
Qed.

(** One pause per file that was written, and none otherwise. *)
Lemma sweep_sleeps E total i cs evs o :
  sweep E total i cs evs o ->
  sleeps_of evs = (fun _ => PAUSE_MS) <$> filter (fun x => x.2 = true) (writes_of evs).
Proof.
  induction 1 as [i|i c cs t t' res ok evs o _ _ _ _ IH|i c cs t t' res ok _ _ _].
  - done.
  - rewrite sleeps_of_app, writes_of_app, filter_app, fmap_app, <- IH.
    f_equal. rewrite segment_sleeps, segment_writes.
    destruct (accepted res); [|done]. by destruct ok.
  - rewrite segment_sleeps, segment_writes.
    destruct (accepted res); [|done]. by destruct ok.
Qed.

(** Every write of the sweep goes to the file of a county of the list, whose
    request was sent before. *)
Lemma sweep_write_paths E total i cs evs o :
  sweep E total i cs evs o ->
  forall p content ok, (p, content, ok) ∈ writes_of evs ->
    exists c res, c ∈ cs /\ p = out_path E c
                  /\ (county_request c, res) ∈ posts_of evs
                  /\ accepted res = Some content.
Proof.
  induction 1 as [i|i c cs t t' res ok evs o _ _ _ _ IH|i c cs t t' res ok _ _ _];
    intros p content b.
  - by intros ?%elem_of_nil.
  - rewrite writes_of_app, posts_of_app, segment_writes, segment_posts.
    intros [Hin|Hin]%elem_of_app.
    + destruct (accepted res) as [ttl|] eqn:Hacc; [|by apply elem_of_nil in Hin].
      apply list_elem_of_singleton in Hin as [= -> -> ->].
      exists c, res. set_solver.
    + destruct (IH _ _ _ Hin) as (c0 & res0 & ? & ? & ? & ?).
      exists c0, res0. set_solver.
  - rewrite segment_writes, segment_posts.
    destruct (accepted res) as [ttl|] eqn:Hacc; [|by intros ?%elem_of_nil].
    intros [= -> -> ->]%list_elem_of_singleton. exists c, res. set_solver.
Qed.


(** ** The two modes *)

Lemma get_maine_counties_spec E w :
  exists o, get_maine_counties E w = (o, advance w [EPost SELECT (net E (now w) SELECT)])
            /\ (forall c, o <> Exited c).
Proof.
  destruct (get_maine_counties_frame E w) as (o & H & Hne).
  exists o. split; [|done]. rewrite H. by rewrite emit_advance.
Qed.

(** The enumeration returns the pairs of the bindings, in their order. *)
Lemma get_maine_counties_returns E w r data results bs cs :
  net E (now w) SELECT = PostReturned r ->
  error_status (status_code r) = false ->
  json_body r = Some data ->
  data !! "results" = Some results ->
  results !! "bindings" = Some bs ->
  Forall2 (fun b p => binding_pair b = Some p) bs cs ->
  get_maine_counties E w = (Returned cs, advance w [EPost SELECT (PostReturned r)]).
Proof.
  intros Hnet Hst Hjson Hres Hbs Hcs.
  unfold get_maine_counties, run_select, post. fold SELECT. py_unfold.
  rewrite Hnet, raise_for_status_pure, Hst. unfold resp_json. rewrite Hjson.
  py_unfold. rewrite getitem_pure, Hres, getitem_pure, Hbs.
  match goal with |- collect_counties bs ?w1 = _ =>
    destruct (collect_counties_pure bs w1) as (o & Hc & _ & Hok) end.
  rewrite Hc, (Hok _ Hcs). f_equal.
Qed.

(** The sweep mode, as a function of the enumeration. *)
Lemma main_spec E w :
  let w0 := advance w (main_head E) in
  let sel := EPost SELECT (net E (now w0) SELECT) in
  match (get_maine_counties E w0).1 with
  | Returned cs =>
      exists evs o,
        sweep E (length cs) 1 cs evs o
        /\ main E w =
             (o, advance w (main_head E ++ [sel; EPrint (MFound (length cs))] ++ evs
                            ++ match o with Returned _ => [EPrint MDone] | _ => [] end))
  | Raised e => main E w = (Raised e, advance w (main_head E ++ [sel]))
  | Exited _ => False
  end.
Proof.
  intros w0 sel. unfold main.
  rewrite (bind_Returned _ _ _ _ _ (print_spec _ w)).
  rewrite (bind_Returned _ _ _ _ _ (print_spec _ _)), advance_advance.
  change ([EPrint (MOutputDir (OUT_DIR E))] ++ [EPrint MFetching]) with (main_head E).
  fold w0. destruct (get_maine_counties_spec E w0) as (oe & He & Hne).
  fold sel in He. rewrite He. cbn [fst].
  destruct oe as [cs|e|c]; [| |by destruct (Hne c)].
  - rewrite (bind_Returned _ _ _ _ _ He).
    rewrite (bind_Returned _ _ _ _ _ (print_spec _ _)).
    unfold w0. rewrite !advance_advance.
    destruct (export_loop_sweep E (length cs) cs 1
                (advance w ((main_head E ++ [sel]) ++ [EPrint (MFound (length cs))])))
      as (evs & o & Hs & Hl).
    exists evs, o. split; [done|].
    destruct o as [[]|e|c].
    + rewrite (bind_Returned _ _ _ _ _ Hl), print_spec, !advance_advance.
      by rewrite <- !app_assoc.
    + rewrite (bind_Raised _ _ _ _ _ Hl).
      by rewrite advance_advance, app_nil_r, <- !app_assoc.
    + rewrite (bind_Exited _ _ _ _ _ Hl).
      by rewrite advance_advance, app_nil_r, <- !app_assoc.
  - rewrite (bind_Raised _ _ _ _ _ He). unfold w0. by rewrite advance_advance.
Qed.

(** The single-county mode, as a function of the enumeration and of the two
    answers it receives. *)
Lemma single_spec E arg w :
  let target_fips := py_strip arg in
  let sel := EPost SELECT (net E (now w) SELECT) in
  match (get_maine_counties E w).1 with
  | Returned cs =>
      match matching target_fips cs with
      | [] =>
          single E arg w = (Exited 1, advance w [sel; EPrint (MNoCounty target_fips)])
      | (county_iri, label) :: _ =>
          let rq := construct_request (construct_for_county county_iri) in
          let res := net E (S (S (now w))) rq in
          let p := OUT_DIR E ++ [ttl_name label target_fips] in
          let head := [sel; EMkdir (OUT_DIR E); EPost rq res] in
          single E arg w =
            match construct_outcome res with
            | inr e => (Raised e, advance w head)
            | inl ttl_text =>
                if disk_ok E (S (S (S (now w)))) p ttl_text
                then (Returned tt,
                      advance w (head ++ [EWrite p ttl_text true; EPrint (MSavedPath p)]))
                else (Raised (OSError (py "write_text")),
                      advance w (head ++ [EWrite p ttl_text false]))
            end
      end
  | Raised e => single E arg w = (Raised e, advance w [sel])
  | Exited _ => False
  end.
Proof.
  intros target_fips sel. unfold single. fold target_fips.
  destruct (get_maine_counties_spec E w) as (oe & He & Hne). fold sel in He.
  rewrite He. cbn [fst].
  destruct oe as [cs|e|c]; [| |by destruct (Hne c)].
  - rewrite (bind_Returned _ _ _ _ _ He).
    destruct (matching target_fips cs) as [|[iri label] rest].
    + rewrite (bind_Returned _ _ _ _ _ (print_spec _ _)), advance_advance. done.
    + cbv zeta.
      rewrite (bind_Returned _ _ _ _ _ (mkdir_p_spec _ _)), advance_advance.
      unfold mbind at 1, Py_bind, py_bind.
      rewrite run_construct_spec, advance_advance, now_advance. simpl length.
      replace (now w + 2) with (S (S (now w))) by lia.
      destruct (construct_outcome _) as [ttl|e]; [|by rewrite <- !app_assoc].
      unfold mbind, Py_bind, py_bind.
      rewrite write_text_spec, advance_advance, now_advance. simpl length.
      replace (now w + 3) with (S (S (S (now w)))) by lia.
      destruct (disk_ok _ _ _ _).
      * rewrite print_spec, advance_advance. by rewrite <- !app_assoc.
      * by rewrite <- !app_assoc.
  - by rewrite (bind_Raised _ _ _ _ _ He).
Qed.

Lemma script_single E prog arg w :
  script E [prog; arg] w = single E arg (advance w [EMkdir (OUT_DIR E)]).
Proof. unfold script. by rewrite (bind_Returned _ _ _ _ _ (mkdir_p_spec _ _)). Qed.

Lemma script_sweep E argv w :
  length argv <> 2 -> script E argv w = main E (advance w [EMkdir (OUT_DIR E)]).
Proof.
  intros Hlen. unfold script. rewrite (bind_Returned _ _ _ _ _ (mkdir_p_spec _ _)).
  by destruct argv as [|? [|? [|? ?]]].
Qed.

(** C1, at a failing input: in single-county mode the service answers the
    CONSTRUCT request with status 200 and an HTML page; the test of line 152
    recognises the page, and the script still writes it to the county's
    file and ends normally. *)
Theorem single_mode_persists_html :
  let E := service two_counties (ok_response HTML_PAGE None) true in
  let run := script E [PROG; py "23001"] (boot ∅ ∅) in
  looks_like_html HTML_PAGE = true
  /\ run.1 = Returned tt
  /\ writes_of (trace run.2) =
       [(OUT_DIR E ++ [py "cropland_androscoggin_county_maine_23001.ttl"], HTML_PAGE, true)]
  /\ files run.2 !! (OUT_DIR E ++ [py "cropland_androscoggin_county_maine_23001.ttl"])
     = Some HTML_PAGE.
Proof. vm_compute. repeat split; reflexivity. Qed.

(** ** The sweep mode as a whole *)

Lemma script_sweep_spec E argv ds fs :
  length argv <> 2 ->
  match (get_maine_counties E (sweep_start E ds fs)).1 with
  | Returned cs =>
      exists evs o,
        sweep E (length cs) 1 cs evs o
        /\ script E argv (boot ds fs) =
             (o, advance (boot ds fs)
                   (sweep_prefix E ds fs (length cs) ++ evs
                    ++ match o with Returned _ => [EPrint MDone] | _ => [] end))
  | Raised e =>
      script E argv (boot ds fs) =
        (Raised e,
         advance (boot ds fs)
           (EMkdir (OUT_DIR E) :: main_head E
            ++ [EPost SELECT (net E (now (sweep_start E ds fs)) SELECT)]))
  | Exited _ => False
  end.
Proof.
  intros Hlen. rewrite (script_sweep E argv _ Hlen).
  pose proof (main_spec E (advance (boot ds fs) [EMkdir (OUT_DIR E)])) as H.
  cbv zeta in H. rewrite advance_advance in H.
  change ([EMkdir (OUT_DIR E)] ++ main_head E) with (EMkdir (OUT_DIR E) :: main_head E) in H.
  fold (sweep_start E ds fs) in H.
  destruct (get_maine_counties E (sweep_start E ds fs)).1 as [cs|e|c]; [| |done].
  - destruct H as (evs & o & Hs & Hm). exists evs, o. split; [done|].
    rewrite Hm, advance_advance. unfold sweep_prefix.
    f_equal; f_equal; simpl; by rewrite <- ?app_assoc.
  - by rewrite H, advance_advance.
Qed.

Lemma sweep_prefix_writes E ds fs n : writes_of (sweep_prefix E ds fs n) = [].
Proof. reflexivity. Qed.

Lemma sweep_prefix_sleeps E ds fs n : sleeps_of (sweep_prefix E ds fs n) = [].
Proof. reflexivity. Qed.

Lemma sweep_prefix_mkdirs E ds fs n : mkdirs_of (sweep_prefix E ds fs n) = [OUT_DIR E].
Proof. reflexivity. Qed.

Lemma sweep_prefix_posts E ds fs n :
  posts_of (sweep_prefix E ds fs n)
  = [(SELECT, net E (now (sweep_start E ds fs)) SELECT)].
Proof. reflexivity. Qed.

(** In sweep mode nothing that looks like HTML reaches a file. *)
Lemma sweep_mode_never_writes_html E argv ds fs p content ok :
  length argv <> 2 ->
  (p, content, ok) ∈ writes_of (trace (script E argv (boot ds fs)).2) ->
  looks_like_html content = false.
Proof.
  intros Hlen. pose proof (script_sweep_spec E argv ds fs Hlen) as H.
  destruct (get_maine_counties E (sweep_start E ds fs)).1 as [cs|e|c]; [| |done].
  - destruct H as (evs & o & Hs & ->). cbn [snd advance trace boot].
    rewrite app_nil_l, !writes_of_app, sweep_prefix_writes, app_nil_l.
    intros [Hin|Hin]%elem_of_app.
    + by eapply sweep_writes_not_html.
    + destruct o; simpl in Hin; by apply elem_of_nil in Hin.
  - rewrite H. cbn [snd advance trace boot]. simpl. by intros ?%elem_of_nil.
Qed.

Lemma accepted_classify res :
  accepted res = match classify res with VAccepted ttl_text => Some ttl_text | _ => None end.
Proof. reflexivity. Qed.

(** The loop, county by county: [rs] holds, for each county that was
    processed, the answer of the service and the answer of the disk. *)
Lemma sweep_isolation E total i cs evs o :
  sweep E total i cs evs o ->
  exists rs : list (post_result * bool),
    length rs <= length cs
    /\ posts_of evs = zip (county_request <$> cs) (rs.*1)
    /\ writes_of evs = omap (wrote E) (zip cs rs)
    /\ ((o = Returned tt /\ length rs = length cs
         /\ Forall (fun x => x.2 = true) (writes_of evs))
        \/ (o = Raised (OSError (py "write_text"))
            /\ exists p content before,
                 writes_of evs = before ++ [(p, content, false)]
                 /\ Forall (fun x => x.2 = true) before
                 /\ last evs = Some (EWrite p content false))).
Proof.
  induction 1 as [i|i c cs t t' res ok evs o _ _ Hab _ IH|i c cs t t' res ok _ _ Hab].
  - exists []. split; [done|]. split; [done|]. split; [done|]. left. by repeat split.
  - destruct IH as (rs & Hlen & Hposts & Hwrites & Hend).
    assert (Hhead : Forall (fun x : path * pystr * bool => x.2 = true)
                      (writes_of (segment E total i c res ok))).
    { rewrite segment_writes, accepted_classify.
      destruct (classify res); simpl in *; try done. destruct ok; [|done].
      by repeat constructor. }
    exists ((res, ok) :: rs). split; [simpl; lia|].
    split; [rewrite posts_of_app, segment_posts, Hposts; reflexivity|]. split.
    + rewrite writes_of_app, segment_writes, Hwrites. cbn [zip zip_with omap list_omap].
      unfold wrote at 2. cbn [fst snd]. by destruct (accepted res).
    + rewrite writes_of_app. destruct Hend as [(-> & Hall & Hok)|(-> & p & content & before & Hw & Hok & Hlast)].
      * left. split; [done|]. split; [simpl; lia|]. by apply Forall_app_2.
      * right. split; [done|].
        exists p, content, (writes_of (segment E total i c res ok) ++ before).
        split; [by rewrite Hw, app_assoc|]. split; [by apply Forall_app_2|].
        by rewrite last_app, Hlast.
  - exists [(res, ok)]. split; [simpl; lia|].
    split.
    { rewrite segment_posts. cbn [fmap list_fmap zip zip_with fst].
      by rewrite zip_with_nil_r. }
    split.
    + rewrite segment_writes. cbn [zip zip_with]. rewrite zip_with_nil_r.
      cbn [omap list_omap]. unfold wrote. cbn [fst snd]. by destruct (accepted res).
    + right. split; [done|]. rewrite segment_writes, accepted_classify. unfold segment.
      destruct (classify res) as [| | |ttl]; simpl in Hab; try done.
      destruct ok; [done|]. exists (out_path E c), ttl, []. by repeat split.
Qed.

(** C2 (amended): in a sweep, a county whose extraction fails (HTTP error or
    any other exception of the extraction call) is skipped without a file
    and the loop goes on with the next county: the counties are requested in
    enumeration order and a write is attempted for exactly the processed
    counties whose answer is accepted. When no write of the run fails, the
    run ends normally after every county was processed. A write that fails
    ends the run there, with its exception: it is the last event of the
    run. A failure of the enumeration ends the run before any county is
    attempted. *)
Theorem sweep_isolates_extraction_failures E argv ds fs :
  length argv <> 2 ->
  let run := script E argv (boot ds fs) in
  match (get_maine_counties E (sweep_start E ds fs)).1 with
  | Returned cs =>
      exists evs (rs : list (post_result * bool)),
        trace run.2
        = sweep_prefix E ds fs (length cs) ++ evs
          ++ match run.1 with Returned _ => [EPrint MDone] | _ => [] end
        /\ length rs <= length cs
        /\ posts_of evs = zip (county_request <$> cs) (rs.*1)
        /\ writes_of evs = omap (wrote E) (zip cs rs)
        /\ (Forall (fun x => x.2 = true) (writes_of evs) ->
            run.1 = Returned tt /\ length rs = length cs)
        /\ (forall p content,
              (p, content, false) ∈ writes_of evs ->
              run.1 = Raised (OSError (py "write_text"))
              /\ last (trace run.2) = Some (EWrite p content false))
  | Raised e =>
      run.1 = Raised e
      /\ fst <$> posts_of (trace run.2) = [SELECT]
      /\ writes_of (trace run.2) = []
  | Exited _ => False
  end.
Proof.
  intros Hlen run. pose proof (script_sweep_spec E argv ds fs Hlen) as H.
  destruct (get_maine_counties E (sweep_start E ds fs)).1 as [cs|e|c]; [| |done].
  - destruct H as (evs & o & Hs & Hrun).
    destruct (sweep_isolation _ _ _ _ _ _ Hs) as (rs & Hlen' & Hposts & Hwrites & Hend).
    exists evs, rs. unfold run. rewrite Hrun. cbn [fst snd advance trace boot].
    rewrite app_nil_l. split; [done|]. split; [done|]. split; [done|].
    split; [done|].
    destruct Hend as [(-> & Hall & Hok)|(-> & p & content & before & Hw & Hok & Hlast)].
    + split; [done|]. intros p content Hin. rewrite Forall_forall in Hok.
      by specialize (Hok _ Hin).
    + split.
      * rewrite Hw. intros [_ Hbad]%Forall_app. by apply Forall_cons in Hbad as [? _].
      * intros p' content' Hin. rewrite Hw in Hin.
        apply elem_of_app in Hin as [Hin|Hin].
        -- rewrite Forall_forall in Hok. by specialize (Hok _ Hin).
        -- apply list_elem_of_singleton in Hin as [= -> ->].
           split; [done|]. by rewrite app_nil_r, last_app, Hlast.
  - unfold run. rewrite H. by cbn.
Qed.

(** C4 (amended): the pause is made once, as the last step of the loop body,
    for a county whose file was written, and not at all for a county that is
    skipped (HTTP error, other exception, HTML-shaped answer) or whose write
    fails; over a whole sweep there is one pause per written file. *)
Theorem pause_only_after_saved_county E total i :
  (forall c w,
     let res := net E (S (now w)) (county_request c) in
     exists evs o,
       export_county E total i c w = (o, advance w evs)
       /\ match accepted res with
          | Some ttl_text =>
              if disk_ok E (S (S (now w))) (out_path E c) ttl_text
              then o = Returned tt
                   /\ sleeps_of evs = [PAUSE_MS]
                   /\ last evs = Some (ESleep PAUSE_MS)
                   /\ writes_of evs = [(out_path E c, ttl_text, true)]
              else o = Raised (OSError (py "write_text")) /\ sleeps_of evs = []
          | None => o = Returned tt /\ sleeps_of evs = [] /\ writes_of evs = []
          end)
  /\ (forall cs w,
        exists evs o,
          export_loop E total i cs w = (o, advance w evs)
          /\ sleeps_of evs
             = (fun _ => PAUSE_MS) <$> filter (fun x => x.2 = true) (writes_of evs)).
Proof.
  split.
  - intros c w res. eexists _, _. split; [apply export_county_spec|].
    fold res. rewrite segment_sleeps, segment_writes. unfold accepted, segment.
    destruct (classify res) as [st body|e| |ttl] eqn:Hcl; simpl; try done.
    destruct (disk_ok E (S (S (now w))) (out_path E c) ttl); simpl; done.
  - intros cs w. destruct (export_loop_sweep E total cs i w) as (evs & o & Hs & Hl).
    exists evs, o. split; [done|]. by eapply sweep_sleeps.
Qed.

Lemma sweep_isolates_extraction_failures_witness :
  let E := flaky_service in
  let run := script E [PROG] (boot ∅ ∅) in
  length [PROG] <> 2
  /\ match (get_maine_counties E (sweep_start E ∅ ∅)).1 with
     | Returned cs =>
         exists evs (rs : list (post_result * bool)),
           trace run.2
           = sweep_prefix E ∅ ∅ (length cs) ++ evs
             ++ match run.1 with Returned _ => [EPrint MDone] | _ => [] end
           /\ length rs <= length cs
           /\ posts_of evs = zip (county_request <$> cs) (rs.*1)
           /\ writes_of evs = omap (wrote E) (zip cs rs)
           /\ (Forall (fun x => x.2 = true) (writes_of evs) ->
               run.1 = Returned tt /\ length rs = length cs)
           /\ (forall p content,
                 (p, content, false) ∈ writes_of evs ->
                 run.1 = Raised (OSError (py "write_text"))
                 /\ last (trace run.2) = Some (EWrite p content false))
     | Raised e =>
         run.1 = Raised e
         /\ fst <$> posts_of (trace run.2) = [SELECT]
         /\ writes_of (trace run.2) = []
     | Exited _ => False
     end.
Proof.
  intros E run.
  assert (H1 : length [PROG] <> 2) by (simpl; lia).
  split; [exact H1|].
  exact (sweep_isolates_extraction_failures E [PROG] ∅ ∅ H1).
Defined.

(** The run of the witness: the extraction of the first county fails with
    status 500, the county is skipped without a file, and the second county
    is still requested and written. *)
Example flaky_sweep_skips_the_failing_county :
  let run := script flaky_service [PROG] (boot ∅ ∅) in
  run.1 = Returned tt
  /\ fst <$> posts_of (trace run.2)
     = [SELECT; county_request (IRI_23001, ANDROSCOGGIN);
        county_request (IRI_23003, AROOSTOOK)]
  /\ writes_of (trace run.2)
     = [(OUT_DIR flaky_service ++ [py "cropland_aroostook_county_maine_23003.ttl"],
         TURTLE_DOC, true)].
Proof. vm_compute. repeat split; reflexivity. Qed.

(** C2, as stated, fails: the enumeration succeeds, the first county is
    extracted, its file write fails, and the exception leaves the loop: the
    run ends with a traceback and the second county is never requested. *)
Lemma sweep_aborts_on_failed_write :
  let E := service two_counties (ok_response TURTLE_DOC None) false in
  let run := script E [PROG] (boot ∅ ∅) in
  (get_maine_counties E (sweep_start E ∅ ∅)).1
    = Returned [(IRI_23001, ANDROSCOGGIN); (IRI_23003, AROOSTOOK)]
  /\ run.1 = Raised (OSError (py "write_text"))
  /\ exit_status run.1 = 1%Z
  /\ fst <$> posts_of (trace run.2) = [SELECT; county_request (IRI_23001, ANDROSCOGGIN)].
Proof. vm_compute. repeat split; reflexivity. Qed.

(** C4, as stated, fails: both counties are answered with HTTP 500, both are
    processed, and the sweep ends without a single pause. *)
Lemma no_pause_after_failed_county :
  let E := service two_counties
             (PostReturned {| status_code := 500; text := py "Internal Server Error";
                              json_body := None |}) true in
  let run := script E [PROG] (boot ∅ ∅) in
  run.1 = Returned tt
  /\ fst <$> posts_of (trace run.2)
     = [SELECT; county_request (IRI_23001, ANDROSCOGGIN);
        county_request (IRI_23003, AROOSTOOK)]
  /\ sleeps_of (trace run.2) = [].
Proof. vm_compute. repeat split; reflexivity. Qed.

(** ** File names *)

#[local] Arguments ttl_name : simpl never.
#[local] Arguments extract_fips_from_iri : simpl never.







(** ** The single-county mode *)

Lemma matching_none target cs :
  Forall (fun c => extract_fips_from_iri c.1 <> target) cs -> matching target cs = [].
Proof.
  unfold matching. induction 1 as [|c cs Hc _ IH]; [done|].
  by rewrite filter_cons_False.
Qed.

Lemma matching_first target before c after :
  Forall (fun x => extract_fips_from_iri x.1 <> target) before ->
  extract_fips_from_iri c.1 = target ->
  matching target (before ++ c :: after) = c :: matching target after.
Proof.
  intros Hb Hc. unfold matching. rewrite filter_app, filter_cons_True by done.
  fold (matching target before). by rewrite (matching_none _ _ Hb).
Qed.

(** C8: in single-county mode, when the code given on the command line
    (stripped, as line 169 does) is the extracted code of no enumerated
    county, the script prints the diagnostic and ends with exit status 1
    without writing a file; when counties match, the first of them in
    enumeration order is the one that is requested and whose file is
    written. *)
Theorem single_mode_selection E prog arg ds fs cs :
  (get_maine_counties E (single_start E ds fs)).1 = Returned cs ->
  let target_fips := py_strip arg in
  let run := script E [prog; arg] (boot ds fs) in
  (Forall (fun c => extract_fips_from_iri c.1 <> target_fips) cs ->
     run.1 = Exited 1
     /\ exit_status run.1 <> 0%Z
     /\ last (trace run.2) = Some (EPrint (MNoCounty target_fips))
     /\ writes_of (trace run.2) = []
     /\ files run.2 = fs)
  /\ (forall before c after,
        cs = before ++ c :: after ->
        Forall (fun x => extract_fips_from_iri x.1 <> target_fips) before ->
        extract_fips_from_iri c.1 = target_fips ->
        fst <$> posts_of (trace run.2) = [SELECT; county_request c]
        /\ forall p content ok,
             (p, content, ok) ∈ writes_of (trace run.2) -> p = out_path E c).
Proof.
  intros Henum target_fips run. unfold run. rewrite script_single.
  fold (single_start E ds fs).
  pose proof (single_spec E arg (single_start E ds fs)) as H. cbv zeta in H.
  rewrite Henum in H. fold target_fips in H. split.
  - intros Hnone. rewrite (matching_none _ _ Hnone) in H. rewrite H.
    unfold single_start. rewrite advance_advance. by cbn.
  - intros before c after -> Hb Hc.
    rewrite (matching_first _ _ _ _ Hb Hc) in H. destruct c as [iri label].
    simpl in Hc.
    assert (Hp : OUT_DIR E ++ [ttl_name label target_fips] = out_path E (iri, label)).
    { unfold out_path. simpl. by rewrite Hc. }
    rewrite Hp in H. rewrite H. unfold single_start.
    destruct (construct_outcome _) as [ttl|e].
    + destruct (disk_ok _ _ _ _); rewrite advance_advance; cbn; (split; [done|]);
        intros p content ok [= -> _ _]%list_elem_of_singleton; done.
    + rewrite advance_advance. cbn. split; [done|]. by intros p content ok ?%elem_of_nil.
Qed.

Lemma single_mode_selection_witness :
  let E := service two_counties (ok_response TURTLE_DOC None) true in
  let run := script E [PROG; py " 99999 "] (boot ∅ ∅) in
  (get_maine_counties E (single_start E ∅ ∅)).1
    = Returned [(IRI_23001, ANDROSCOGGIN); (IRI_23003, AROOSTOOK)]
  /\ run.1 = Exited 1
  /\ exit_status run.1 <> 0%Z
  /\ last (trace run.2) = Some (EPrint (MNoCounty (py "99999")))
  /\ writes_of (trace run.2) = []
  /\ files run.2 = ∅.
Proof.
  intros E run.
  assert (H1 : (get_maine_counties E (single_start E ∅ ∅)).1
               = Returned [(IRI_23001, ANDROSCOGGIN); (IRI_23003, AROOSTOOK)])
    by (vm_compute; reflexivity).
  split; [exact H1|].
  apply (proj1 (single_mode_selection E PROG (py " 99999 ") ∅ ∅ _ H1)).
  repeat constructor; intros H; vm_compute in H; discriminate H.
Defined.

(** C9 (amended): in single-county mode nothing is caught and nothing
    pauses: an exception of the extraction call (a transport error, or the
    HTTP error that [raise_for_status] raises for a 4xx or 5xx status) and a
    failure of the file write leave the script as an unhandled exception,
    with exit status 1, and no pause is made on any path. After a failed
    extraction no write is attempted; a failed write is the one write of the
    run and its last event. *)
Theorem single_mode_failures_uncaught E prog arg ds fs cs c rest :
  (get_maine_counties E (single_start E ds fs)).1 = Returned cs ->
  matching (py_strip arg) cs = c :: rest ->
  let run := script E [prog; arg] (boot ds fs) in
  let res := net E 3 (county_request c) in
  sleeps_of (trace run.2) = []
  /\ (forall e, res = PostRaised e ->
        run.1 = Raised e /\ exit_status run.1 = 1%Z /\ writes_of (trace run.2) = [])
  /\ (forall r, res = PostReturned r -> error_status (status_code r) = true ->
        run.1 = Raised (HTTPError (status_code r) (text r))
        /\ exit_status run.1 = 1%Z /\ writes_of (trace run.2) = [])
  /\ (forall r, res = PostReturned r -> error_status (status_code r) = false ->
        disk_ok E 4 (OUT_DIR E ++ [ttl_name c.2 (py_strip arg)]) (text r) = false ->
        run.1 = Raised (OSError (py "write_text"))
        /\ exit_status run.1 = 1%Z
        /\ writes_of (trace run.2)
           = [(OUT_DIR E ++ [ttl_name c.2 (py_strip arg)], text r, false)]
        /\ last (trace run.2)
           = Some (EWrite (OUT_DIR E ++ [ttl_name c.2 (py_strip arg)]) (text r) false)).
Proof.
  intros Henum Hmatch run res. unfold run. rewrite script_single.
  fold (single_start E ds fs).
  pose proof (single_spec E arg (single_start E ds fs)) as H. cbv zeta in H.
  rewrite Henum, Hmatch in H. destruct c as [iri label].
  change (now (single_start E ds fs)) with 1 in H.
  change (construct_request (construct_for_county iri))
    with (county_request (iri, label)) in H.
  fold res in H. rewrite H. unfold single_start. cbn [snd].
  split; [|split; [|split]].
  - destruct (construct_outcome res) as [ttl|e]; [|by rewrite advance_advance].
    destruct (disk_ok _ _ _ _); by rewrite advance_advance.
  - intros e ->. cbn [construct_outcome]. by rewrite advance_advance.
  - intros r -> Hst. cbn [construct_outcome]. rewrite Hst. by rewrite advance_advance.
  - intros r -> Hst Hdisk. cbn [construct_outcome]. rewrite Hst, Hdisk.
    by rewrite advance_advance.
Qed.

Lemma single_mode_failures_uncaught_witness :
  let E := service two_counties
             (PostReturned {| status_code := 503; text := py "Service Unavailable";
                              json_body := None |}) true in
  let run := script E [PROG; py "23003"] (boot ∅ ∅) in
  (get_maine_counties E (single_start E ∅ ∅)).1
    = Returned [(IRI_23001, ANDROSCOGGIN); (IRI_23003, AROOSTOOK)]
  /\ matching (py_strip (py "23003")) [(IRI_23001, ANDROSCOGGIN); (IRI_23003, AROOSTOOK)]
     = [(IRI_23003, AROOSTOOK)]
  /\ sleeps_of (trace run.2) = []
  /\ run.1 = Raised (HTTPError 503 (py "Service Unavailable"))
  /\ exit_status run.1 = 1%Z
  /\ writes_of (trace run.2) = [].
Proof.
  intros E run.
  assert (H1 : (get_maine_counties E (single_start E ∅ ∅)).1
               = Returned [(IRI_23001, ANDROSCOGGIN); (IRI_23003, AROOSTOOK)])
    by (vm_compute; reflexivity).
  assert (H2 : matching (py_strip (py "23003"))
                 [(IRI_23001, ANDROSCOGGIN); (IRI_23003, AROOSTOOK)]
               = [(IRI_23003, AROOSTOOK)])
    by (vm_compute; reflexivity).
  split; [exact H1|]. split; [exact H2|].
  destruct (single_mode_failures_uncaught E PROG (py "23003") ∅ ∅ _ _ _ H1 H2)
    as (Hs & _ & Hhttp & _).
  split; [exact Hs|].
  exact (Hhttp {| status_code := 503; text := py "Service Unavailable";
                  json_body := None |} eq_refl eq_refl).
Defined.

(** C9, as stated, fails for a response that is not 2xx and not an error
    status: [raise_for_status] raises for 4xx and 5xx only, so a 304 answer
    is taken as a document, written to the file, and the script ends
    normally. *)
Lemma single_mode_accepts_304 :
  let E := service two_counties
             (PostReturned {| status_code := 304; text := TURTLE_DOC;
                              json_body := None |}) true in
  let run := script E [PROG; py "23001"] (boot ∅ ∅) in
  run.1 = Returned tt
  /\ exit_status run.1 = 0%Z
  /\ writes_of (trace run.2) = [(OUT_DIR E ++ [ANDROSCOGGIN_TTL], TURTLE_DOC, true)].
Proof. vm_compute. repeat split; reflexivity. Qed.

(** ** The file system after a run *)

#[local] Arguments construct_request : simpl never.
#[local] Arguments construct_for_county : simpl never.
#[local] Arguments OUT_DIR : simpl never.

Lemma apply_writes_changed evs :
  forall fs p, apply_writes evs fs !! p <> fs !! p ->
               exists content, (p, content, true) ∈ writes_of evs.
Proof.
  unfold apply_writes. induction evs as [|ev evs IH]; intros fs p; simpl; [done|].
  intros Hne.
  destruct (decide (foldl apply_event (apply_event fs ev) evs !! p = apply_event fs ev !! p))
    as [Heq|Hne'].
  - rewrite Heq in Hne. destruct ev as [| |q content []| |]; simpl in Hne; try done.
    destruct (decide (q = p)) as [->|Hqp].
    + exists content. simpl. set_solver.
    + by rewrite lookup_insert_ne in Hne.
  - destruct (IH _ _ Hne') as (content & Hin). exists content.
    destruct ev as [| |q content' ok| |]; simpl; try done. set_solver.
Qed.

Lemma union_twice (a b : gset path) : a ∪ b ∪ b = a ∪ b.
Proof. by rewrite <- (assoc_L (∪)), (idemp_L (∪)). Qed.

Lemma dirs_after evs (P : path) :
  Forall (fun p => p = P) (mkdirs_of evs) ->
  forall ds, foldl apply_dir (ds ∪ list_to_set (with_parents P)) evs
             = ds ∪ list_to_set (with_parents P).
Proof.
  induction evs as [|ev evs IH]; intros Hall ds; simpl; [done|].
  destruct ev as [p| | | |]; simpl in *; try by apply IH.
  apply Forall_cons in Hall as [-> Hall].
  rewrite union_twice. by apply IH.
Qed.

Lemma with_parents_self p : p <> [] -> p ∈ with_parents p.
Proof.
  intros Hp. unfold with_parents. apply list_elem_of_fmap.
  exists (length p). split; [by rewrite firstn_all|].
  apply list_elem_of_In, in_seq. destruct p; [done|]. simpl. lia.
Qed.

Lemma matching_head target cs c rest :
  matching target cs = c :: rest -> extract_fips_from_iri c.1 = target.
Proof.
  intros H. assert (Hin : c ∈ matching target cs) by (rewrite H; set_solver).
  unfold matching in Hin. by apply list_elem_of_filter in Hin as [? _].
Qed.

(** Every run starts with the [mkdir] of the output directory; after it, no
    other directory is made, and every write goes to the file of a county
    whose extraction request was sent. *)
Lemma script_frame E argv ds fs :
  exists o evs,
    script E argv (boot ds fs) = (o, advance (boot ds fs) (EMkdir (OUT_DIR E) :: evs))
    /\ Forall (fun p => p = OUT_DIR E) (mkdirs_of evs)
    /\ forall p content ok,
         (p, content, ok) ∈ writes_of evs ->
         exists county_iri label res,
           p = OUT_DIR E ++ [ttl_name label (extract_fips_from_iri county_iri)]
           /\ (construct_request (construct_for_county county_iri), res) ∈ posts_of evs.
Proof.
  destruct (decide (length argv = 2)) as [Hlen|Hlen].
  - destruct argv as [|prog [|arg [|? ?]]]; try done. clear Hlen.
    rewrite script_single.
    pose proof (single_spec E arg (advance (boot ds fs) [EMkdir (OUT_DIR E)])) as H.
    cbv zeta in H.
    destruct (get_maine_counties E _).1 as [cs|e|c]; [| |done].
    + destruct (matching (py_strip arg) cs) as [|[iri label] rest] eqn:Hm.
      * rewrite H, advance_advance. eexists _, _. split; [done|].
        split; [by cbn|]. by intros p content ok ?%elem_of_nil.
      * apply matching_head in Hm. simpl in Hm. rewrite <- Hm in H.
        rewrite H. destruct (construct_outcome _) as [ttl|e].
        -- destruct (disk_ok _ _ _ _); rewrite advance_advance.
           ++ eexists _, _. split; [done|]. split; [by repeat constructor|].
              intros p content ok [= -> _ _]%list_elem_of_singleton.
              eexists iri, label, _. split; [done|]. cbn. repeat constructor.
           ++ eexists _, _. split; [done|]. split; [by repeat constructor|].
              intros p content ok [= -> _ _]%list_elem_of_singleton.
              eexists iri, label, _. split; [done|]. cbn. repeat constructor.
        -- rewrite advance_advance. eexists _, _. split; [done|].
           split; [by repeat constructor|]. by intros p content ok ?%elem_of_nil.
    + rewrite H, advance_advance. eexists _, _. split; [done|].
      split; [by cbn|]. by intros p content ok ?%elem_of_nil.
  - pose proof (script_sweep_spec E argv ds fs Hlen) as H.
    destruct (get_maine_counties E _).1 as [cs|e|c]; [| |done].
    + destruct H as (evs & o & Hs & ->). unfold sweep_prefix.
      rewrite <- app_comm_cons. eexists _, _. split; [done|]. split.
      * rewrite !mkdirs_of_app, (sweep_mkdirs _ _ _ _ _ _ Hs).
        destruct o; by cbn.
      * intros p content ok. rewrite !writes_of_app, !posts_of_app.
        intros [Hin|[Hin|Hin]%elem_of_app]%elem_of_app.
        -- cbn in Hin. by apply elem_of_nil in Hin.
        -- destruct (sweep_write_paths _ _ _ _ _ _ Hs _ _ _ Hin)
             as ([iri label] & res & _ & -> & Hpost & _).
           exists iri, label, res. split; [done|]. set_solver.
        -- destruct o; cbn in Hin; by apply elem_of_nil in Hin.
    + rewrite H. eexists _, _. split; [done|].
      split; [by cbn|]. by intros p content ok ?%elem_of_nil.
Qed.

Lemma with_parents_length p q : q ∈ with_parents p -> length q <= length p.
Proof.
  unfold with_parents. intros (k & -> & _)%list_elem_of_fmap.
  rewrite length_take. lia.
Qed.

Lemma out_dir_not_made_before_failure E made :
  OUT_DIR E ∉ with_parents (made_before_failure made (OUT_DIR E)).
Proof.
  intros Hin%with_parents_length. unfold made_before_failure in Hin.
  rewrite length_take in Hin.
  assert (2 <= length (OUT_DIR E)) by (unfold OUT_DIR; rewrite length_app; simpl; lia).
  lia.
Qed.

Lemma apply_writes_untouched evs fs p :
  (forall content ok, (p, content, ok) ∉ writes_of evs) ->
  apply_writes evs fs !! p = fs !! p.
Proof.
  intros Hno. destruct (decide (apply_writes evs fs !! p = fs !! p)) as [|Hne]; [done|].
  apply apply_writes_changed in Hne as (content & Hin). by destruct (Hno _ _ Hin).
Qed.

(** C10 (amended): when the creation of the output directory at line 11
    succeeds, it is the first effect of the run, before any request; at the
    end of the run the directory exists, the only directories added are the
    output directory and its parents, every write that is attempted goes to
    the output file of a county whose extraction request was sent, and a
    path to which no write was attempted holds what it held before. When
    the creation fails, the run ends there with its exception and exit
    status 1: no request is sent, no file is written, and the output
    directory exists afterwards only if it existed before. *)
Theorem out_dir_created_first a E argv ds fs :
  let run := invocation a E argv (boot ds fs) in
  match a with
  | MkdirDone =>
      (exists evs, trace run.2 = EMkdir (OUT_DIR E) :: evs)
      /\ OUT_DIR E ∈ dirs run.2
      /\ dirs run.2 = ds ∪ list_to_set (with_parents (OUT_DIR E))
      /\ (forall p content ok,
            (p, content, ok) ∈ writes_of (trace run.2) ->
            exists county_iri label res,
              p = OUT_DIR E ++ [py "cropland_" ++ safe_filename label ++ py "_"
                                ++ extract_fips_from_iri county_iri ++ py ".ttl"]
              /\ (construct_request (construct_for_county county_iri), res)
                 ∈ posts_of (trace run.2))
      /\ (forall p,
            (forall content ok, (p, content, ok) ∉ writes_of (trace run.2)) ->
            files run.2 !! p = fs !! p)
  | MkdirRaises made msg =>
      run.1 = Raised (OSError msg)
      /\ exit_status run.1 = 1%Z
      /\ trace run.2 = []
      /\ files run.2 = fs
      /\ (OUT_DIR E ∈ dirs run.2 <-> OUT_DIR E ∈ ds)
  end.
Proof.
  intros run. destruct a as [|made msg].
  - destruct (script_frame E argv ds fs) as (o & evs & Hrun & Hdirs & Hwrites).
    unfold run, invocation. rewrite Hrun. cbn [snd advance trace dirs files boot].
    assert (Hd : foldl apply_dir ds (EMkdir (OUT_DIR E) :: evs)
                 = ds ∪ list_to_set (with_parents (OUT_DIR E))).
    { simpl. by apply dirs_after. }
    split; [by eexists|]. split; [|split; [exact Hd|split]].
    + rewrite Hd. apply elem_of_union_r, elem_of_list_to_set, with_parents_self.
      unfold OUT_DIR. by destruct (home E).
    + intros p content ok Hin. rewrite app_nil_l in Hin. simpl in Hin.
      destruct (Hwrites _ _ _ Hin) as (iri & label & res & -> & Hpost).
      exists iri, label, res. split; [done|]. simpl. set_solver.
    + intros p Hno. apply apply_writes_untouched. intros content ok Hin.
      apply (Hno content ok). by rewrite app_nil_l.
  - unfold run, invocation. cbn [fst snd trace dirs files boot exit_status].
    repeat (split; [done|]). rewrite elem_of_union, elem_of_list_to_set. split.
    + intros [?|Hin]; [done|]. by apply out_dir_not_made_before_failure in Hin.
    + by left.
Qed.

Lemma out_dir_created_first_witness :
  let E := service two_counties (ok_response TURTLE_DOC None) true in
  let run := invocation MkdirDone E [PROG] (boot ∅ ∅) in
  OUT_DIR E ∈ dirs run.2
  /\ exists county_iri label res,
       OUT_DIR E ++ [ANDROSCOGGIN_TTL]
       = OUT_DIR E ++ [py "cropland_" ++ safe_filename label ++ py "_"
                       ++ extract_fips_from_iri county_iri ++ py ".ttl"]
       /\ (construct_request (construct_for_county county_iri), res)
          ∈ posts_of (trace run.2).
Proof.
  intros E run.
  destruct (out_dir_created_first MkdirDone E [PROG] ∅ ∅) as (_ & Hdir & _ & Hwrites & _).
  split; [exact Hdir|].
  apply (Hwrites _ TURTLE_DOC true). vm_compute. left.
Defined.

(** C10, as stated, fails when the creation of the directory fails: with a
    regular file in the place of the Desktop directory, the [mkdir] of line
    11 raises, the run ends with the exception, the output directory does
    not exist afterwards and no query was issued. *)
Lemma out_dir_missing_when_mkdir_fails :
  let E := service two_counties (ok_response TURTLE_DOC None) true in
  let desktop := [py "home"; py "user"; py "Desktop"] in
  let run := invocation (MkdirRaises 0 (py "Not a directory")) E [PROG]
               (boot {[ [py "home"]; [py "home"; py "user"] ]}
                     {[ desktop := py "notes" ]}) in
  run.1 = Raised (OSError (py "Not a directory"))
  /\ exit_status run.1 = 1%Z
  /\ (OUT_DIR E ∉ dirs run.2)
  /\ posts_of (trace run.2) = []
  /\ files run.2 = {[ desktop := py "notes" ]}.
Proof.
  intros E desktop run. split; [reflexivity|]. split; [reflexivity|].
  split; [|by split]. unfold run, invocation. cbn [snd dirs boot].
  rewrite elem_of_union, elem_of_list_to_set. intros [Hin|Hin].
  - apply elem_of_union in Hin as [Hin|Hin]; apply elem_of_singleton in Hin;
      vm_compute in Hin; discriminate Hin.
  - by apply out_dir_not_made_before_failure in Hin.
Qed.

(** ** The order of the enumeration *)

(** C3 (amended): [get_maine_counties] returns one (identifier, label) pair
    per binding of the answer, in the order of the answer: the k-th pair is
    made of the county value and the label value of the k-th binding. The
    function neither sorts nor removes duplicates; ordering and distinctness
    are what the query asks of the service. *)
Theorem enumeration_keeps_binding_order E w r data results bs cs :
  net E (now w) SELECT = PostReturned r ->
  error_status (status_code r) = false ->
  json_body r = Some data ->
  data !! "results" = Some results ->
  results !! "bindings" = Some bs ->
  Forall2 (fun b p => binding_pair b = Some p) bs cs ->
  (get_maine_counties E w).1 = Returned cs
  /\ length cs = length bs
  /\ (forall k b, bs !! k = Some b -> binding_pair b = cs !! k)
  /\ fst <$> posts_of (trace (get_maine_counties E w).2)
     = (fst <$> posts_of (trace w)) ++ [SELECT].
Proof.
  intros Hnet Hst Hjson Hres Hbs Hcs.
  rewrite (get_maine_counties_returns E w r data results bs cs) by done.
  split; [done|]. split; [symmetry; by eapply Forall2_length|]. split.
  - intros k b Hk. destruct (Forall2_lookup_l _ _ _ _ _ Hcs Hk) as (p & Hp & Hbp).
    by rewrite Hp.
  - cbn [snd advance trace]. by rewrite posts_of_app, fmap_app.
Qed.

Lemma enumeration_keeps_binding_order_witness :
  let E := service two_counties (ok_response TURTLE_DOC None) true in
  let cs := [(IRI_23001, ANDROSCOGGIN); (IRI_23003, AROOSTOOK)] in
  (get_maine_counties E (boot ∅ ∅)).1 = Returned cs
  /\ length cs = length two_counties
  /\ (forall k b, two_counties !! k = Some b -> binding_pair b = cs !! k)
  /\ fst <$> posts_of (trace (get_maine_counties E (boot ∅ ∅)).2)
     = (fst <$> posts_of (trace (boot ∅ ∅))) ++ [SELECT].
Proof.
  intros E cs.
  apply (enumeration_keeps_binding_order E (boot ∅ ∅)
           {| status_code := 200; text := []; json_body := Some (mk_doc two_counties) |}
           (mk_doc two_counties) {[ "bindings" := two_counties ]} two_counties cs).
  - reflexivity.
  - reflexivity.
  - reflexivity.
  - reflexivity.
  - reflexivity.
  - repeat constructor.
Defined.

(** C3, as stated, fails: the service answers with bindings that are neither
    ordered by label nor distinct, and the function returns them as they
    came. *)
Lemma enumeration_returns_unsorted_duplicates :
  let E := service [mk_binding IRI_23003 AROOSTOOK; mk_binding IRI_23001 ANDROSCOGGIN;
                    mk_binding IRI_23001 ANDROSCOGGIN]
             (ok_response TURTLE_DOC None) true in
  let cs := [(IRI_23003, AROOSTOOK); (IRI_23001, ANDROSCOGGIN);
             (IRI_23001, ANDROSCOGGIN)] in
  (get_maine_counties E (boot ∅ ∅)).1 = Returned cs
  /\ is_sorted_by_label cs = false
  /\ ~ NoDup cs.
Proof.
  intros E cs. split; [vm_compute; reflexivity|]. split; [vm_compute; reflexivity|].
  intros H. apply NoDup_cons in H as [_ H]. apply NoDup_cons in H as [H _].
  apply H. constructor.
Qed.

(** ** The claim's reading of the suffix pattern *)

Lemma code_of_suffix_match pre d :
  d <> [] -> all_digits d -> code_of_suffix (pre ++ REGION_PREFIX ++ d) = d.
Proof.
  intros Hne Hd. unfold code_of_suffix.
  assert (Ht : trailing_digits (pre ++ REGION_PREFIX ++ d) = d).
  { rewrite REGION_PREFIX_dot, <- app_assoc, app_assoc.
    by apply trailing_digits_decomposed. }
  rewrite Ht, !length_app.
  replace (length pre + (length REGION_PREFIX + length d) - length d)
    with (length (pre ++ REGION_PREFIX)) by (rewrite length_app; lia).
  rewrite app_assoc, take_app_length, endswith_app. by destruct d.
Qed.

Lemma code_of_suffix_unknown s :
  (~ exists pre d, d <> [] /\ all_digits d /\ s = pre ++ REGION_PREFIX ++ d) ->
  code_of_suffix s = UNKNOWN_CODE.
Proof.
  intros Hno. unfold code_of_suffix.
  destruct (trailing_digits s) as [|c d] eqn:Hd; [done|].
  destruct (endswith REGION_PREFIX _) eqn:Hp; [|done].
  exfalso. apply Hno. apply endswith_split in Hp as [pre Hpre].
  exists pre, (c :: d). split; [done|]. split.
  - rewrite <- Hd. apply trailing_digits_all.
  - rewrite (trailing_digits_split s) at 1. by rewrite Hd, Hpre, <- app_assoc.
Qed.

(** C6, as stated, fails: this identifier ends with a newline, so it does
    not end with the region prefix followed by digits, and the function
    returns the digits before the newline instead of the unknown token. *)
Lemma extract_fips_accepts_trailing_newline :
  let s := py "administrativeRegion.USA.23001" ++ [newline] in
  (~ exists pre d, d <> [] /\ all_digits d /\ s = pre ++ REGION_PREFIX ++ d)
  /\ code_of_suffix s = UNKNOWN_CODE
  /\ extract_fips_from_iri s = py "23001"
  /\ extract_fips_from_iri s <> UNKNOWN_CODE.
Proof.
  intros s. split; [|split; [reflexivity|split; [reflexivity|by vm_compute]]].
  intros (pre & d & Hne & Hd & Hs).
  destruct d as [|c d _] using rev_ind; [done|].
  unfold s in Hs. rewrite !app_assoc in Hs. apply app_inj_tail in Hs as [_ <-].
  unfold all_digits in Hd. apply Forall_app in Hd as [_ Hd].
  apply Forall_cons in Hd as [Hd _]. by rewrite newline_not_digit in Hd.
Qed.

(** * Further properties of the code *)

(** ** Slugs and codes *)

Lemma lower_char_isspace c : py_isspace (lower_char c) = py_isspace c.
Proof. all_chars c. Qed.

Lemma lower_char_idem c : lower_char (lower_char c) = lower_char c.
Proof. all_chars c. Qed.

Lemma drop_while_space_lower s :
  drop_while py_isspace (py_lower s) = py_lower (drop_while py_isspace s).
Proof.
  induction s as [|c s IH]; simpl; [done|].
  rewrite lower_char_isspace. by destruct (py_isspace c).
Qed.

Lemma py_lower_rev s : py_lower (rev s) = rev (py_lower s).
Proof. unfold py_lower. apply map_rev. Qed.

(** Stripping and lowering commute. *)
Lemma py_strip_lower s : py_strip (py_lower s) = py_lower (py_strip s).
Proof.
  unfold py_strip, strip_by, lstrip_by, rstrip_by.
  by rewrite drop_while_space_lower, <- py_lower_rev, drop_while_space_lower, py_lower_rev.
Qed.

(** X1: labels that differ only in the case of their letters get the same
    slug. *)
Theorem safe_filename_ignores_case (x y : pystr) :
  py_lower x = py_lower y -> safe_filename x = safe_filename y.
Proof.
  intros H. unfold safe_filename. by rewrite <- !py_strip_lower, H.
Qed.

Lemma safe_filename_ignores_case_witness :
  safe_filename (py "AROOSTOOK County, MAINE") = safe_filename (py "Aroostook county, Maine").
Proof. apply safe_filename_ignores_case. reflexivity. Defined.

Lemma drop_while_length p s : length (drop_while p s) <= length s.
Proof. induction s as [|c s IH]; simpl; [done|]. destruct (p c); simpl; lia. Qed.

Lemma drop_while_fixed_head p s :
  drop_while p s = s -> match s with [] => True | c :: _ => p c = false end.
Proof.
  destruct s as [|c s]; simpl; [done|]. destruct (p c) eqn:Hc; [|done].
  intros H. pose proof (drop_while_length p s) as Hl. rewrite H in Hl. simpl in Hl. lia.
Qed.

(** Both ends of a stripped string are outside the stripped class. *)
Lemma strip_by_ends p s :
  drop_while p (strip_by p s) = strip_by p s
  /\ drop_while p (rev (strip_by p s)) = rev (strip_by p s).
Proof.
  pose proof (strip_by_idem p s) as H. unfold strip_by at 1, lstrip_by, rstrip_by in H.
  set (r := strip_by p s) in *.
  assert (Hrev : drop_while p (rev r) = rev r).
  { unfold r, strip_by, rstrip_by. by rewrite rev_involutive, drop_while_idem. }
  split; [|done].
  destruct (drop_while_suffix p r) as [y Hy].
  destruct (rstrip_by_prefix p (drop_while p r)) as [z Hz].
  unfold rstrip_by in Hz at 1. rewrite H in Hz.
  assert (Hlen : length r = length y + length (drop_while p r)) by (rewrite Hy at 1; apply length_app).
  rewrite Hz, length_app in Hlen.
  assert (z = []) as -> by (destruct z; [done|simpl in Hlen; lia]).
  by rewrite app_nil_r in Hz.
Qed.

Lemma tidy_no_double_underscore b s :
  tidy b s = true -> contains (py "__") s = false.
Proof.
  revert b. induction s as [|c s IH]; intros b; [done|].
  cbn [tidy]. intros H.
  assert (Hrest : contains (py "__") s = false).
  { destruct (is_underscore c); apply andb_prop in H as [_ H]; by eapply IH. }
  cbn [contains]. rewrite Hrest, orb_false_r.
  change (py "__") with [underscore; underscore].
  destruct s as [|d s]; cbn [startswith]; [by rewrite andb_false_r|].
  rewrite andb_true_r.
  destruct (is_underscore c) eqn:Hc.
  - apply andb_prop in H as [_ H]. cbn [tidy] in H.
    destruct (is_underscore d) eqn:Hd; [done|].
    unfold is_underscore in Hd. rewrite bool_decide_eq_false in Hd.
    rewrite (bool_decide_eq_false_2 (underscore = d)) by congruence.
    by rewrite andb_false_r.
  - unfold is_underscore in Hc. rewrite bool_decide_eq_false in Hc.
    by rewrite (bool_decide_eq_false_2 (underscore = c)) by congruence.
Qed.

(** X2: a slug is never empty, neither begins nor ends with an underscore,
    and has no two underscores in a row. *)
Theorem safe_filename_shape (x : pystr) :
  safe_filename x <> []
  /\ head (safe_filename x) <> Some underscore
  /\ last (safe_filename x) <> Some underscore
  /\ contains (py "__") (safe_filename x) = false.
Proof.
  rewrite safe_filename_core.
  destruct (slug_core x) as [|c r] eqn:Hcore; [by vm_compute|].
  pose proof (slug_core_tidy x) as Ht. rewrite Hcore in Ht.
  destruct (strip_by_ends is_underscore
              (re_sub_runs is_underscore
                 (re_sub_runs not_lower_alnum (replace_amp (py_lower (py_strip x))))))
    as [Hl Hr].
  fold (slug_core x) in Hl, Hr. rewrite Hcore in Hl, Hr.
  split; [done|]. split; [|split].
  - apply drop_while_fixed_head in Hl. simpl. intros [= ->]. done.
  - intros [l' Hl']%last_Some. rewrite Hl', rev_app_distr in Hr.
    by apply drop_while_fixed_head in Hr.
  - by eapply tidy_no_double_underscore.
Qed.

(** X3: the code of an identifier is the unknown token or a non-empty run
    of digits. *)
Theorem extract_fips_from_iri_shape (county_iri : pystr) :
  extract_fips_from_iri county_iri = UNKNOWN_CODE
  \/ (extract_fips_from_iri county_iri <> [] /\ all_digits (extract_fips_from_iri county_iri)).
Proof.
  unfold extract_fips_from_iri.
  destruct (re_search_fips county_iri) as [d|] eqn:Hs; [|by left].
  right. by apply re_search_fips_sound in Hs as (pre & e & _ & Hne & Hd & _).
Qed.

Lemma digit_not_slash c : is_digit c = true -> c <> slash.
Proof. all_chars c. Qed.

Lemma slug_not_slash c : slug_char c = true -> c <> slash.
Proof. all_chars c. Qed.

(** X4: the name of every output file starts with [cropland_] and holds no
    path separator, so the file is a direct child of the output directory:
    the slug is made of [a-z0-9_] and the code is the unknown token or a run
    of digits, and none of these is the separator. *)
Theorem ttl_name_no_separator (label county_iri : pystr) :
  let name := ttl_name label (extract_fips_from_iri county_iri) in
  (slash ∉ name) /\ startswith NAME_PREFIX name = true.
Proof.
  intros name. split; [|reflexivity].
  assert (H : Forall (fun c => c <> slash) name).
  { unfold name, ttl_name. repeat apply Forall_app_2.
    - by repeat constructor.
    - eapply Forall_impl; [apply (tidy_slug_chars _ _ (safe_filename_tidy label))|].
      apply slug_not_slash.
    - by repeat constructor.
    - destruct (extract_fips_from_iri_shape county_iri) as [->|[_ Hd]].
      + by repeat constructor.
      + eapply Forall_impl; [exact Hd|]. apply digit_not_slash.
    - by repeat constructor. }
  intros Hin. rewrite Forall_forall in H. by apply (H _ Hin).
Qed.

(** X5: distinct identifiers give distinct extraction queries. *)
Theorem construct_for_county_injective (a b : pystr) :
  construct_for_county a = construct_for_county b -> a = b.
Proof.
  unfold construct_for_county. intros H.
  apply app_inv_head in H. by apply app_inv_tail in H.
Qed.

Lemma construct_for_county_injective_witness : IRI_23001 = IRI_23001.
Proof. apply construct_for_county_injective. reflexivity. Defined.

(** ** Requests, progress and outcome of a run *)

Lemma trace_boot ds fs evs : trace (advance (boot ds fs) evs) = evs.
Proof. reflexivity. Qed.

Ltac boot_trace := cbn [fst snd]; rewrite ?advance_advance, ?trace_boot.

Lemma exporting_of_app a b : exporting_of (a ++ b) = exporting_of a ++ exporting_of b.
Proof. apply omap_app. Qed.


Lemma segment_exporting E total i c res ok :
  exporting_of (segment E total i c res ok) = [(i, total)].
Proof. unfold segment. simpl. by destruct (classify res), ok. Qed.


Lemma segment_last_abort E total i c res ok :
  aborts (classify res) ok = true ->
  exists ttl_text, last (segment E total i c res ok)
                   = Some (EWrite (out_path E c) ttl_text false).
Proof.
  unfold segment. destruct (classify res) as [| | |ttl]; simpl; try done.
  destruct ok; [done|]. by exists ttl.
Qed.

(** The loop ends normally, or with the exception of a failed write, which
    is then the last event. *)
Lemma sweep_outcome E total i cs evs o :
  sweep E total i cs evs o ->
  o = Returned tt
  \/ (o = Raised (OSError (py "write_text"))
      /\ exists p ttl_text, last evs = Some (EWrite p ttl_text false)).
Proof.
  induction 1 as [i|i c cs t t' res ok evs o _ _ _ _ IH|i c cs t t' res ok _ _ Hab].
  - by left.
  - destruct IH as [->|(-> & p & ttl & Hlast)]; [by left|right].
    split; [done|]. exists p, ttl. by rewrite last_app, Hlast.
  - right. split; [done|]. destruct (segment_last_abort E total i c res ok Hab) as [ttl H].
    by eexists _, ttl.
Qed.

(** The counties are requested in order, one request each, up to the county
    at which the loop stops; the progress messages count them from [i]. *)
Lemma sweep_progress E total i cs evs o :
  sweep E total i cs evs o ->
  exists k, k <= length cs
            /\ (o = Returned tt -> k = length cs)
            /\ fst <$> posts_of evs = county_request <$> take k cs
            /\ exporting_of evs = (fun j => (j, total)) <$> seq i k.
Proof.
  induction 1 as [i|i c cs t t' res ok evs o _ _ _ _ IH|i c cs t t' res ok _ _ Hab].
  - exists 0. by repeat split.
  - destruct IH as (k & Hk & Hret & Hposts & Hexp). exists (S k).
    split; [simpl; lia|]. split; [intros Ho; simpl; by rewrite (Hret Ho)|].
    rewrite posts_of_app, exporting_of_app, segment_posts, segment_exporting, fmap_app.
    rewrite Hposts, Hexp. done.
  - exists 1. split; [simpl; lia|]. split; [done|].
    by rewrite segment_posts, segment_exporting.
Qed.


Lemma script_posts E argv ds fs :
  exists res rest,
    posts_of (trace (script E argv (boot ds fs)).2) = (SELECT, res) :: rest
    /\ Forall (fun x => exists county_iri,
                 x.1 = construct_request (construct_for_county county_iri)) rest.
Proof.
  destruct (decide (length argv = 2)) as [Hlen|Hlen].
  - destruct argv as [|prog [|arg [|? ?]]]; try done. clear Hlen.
    rewrite script_single.
    pose proof (single_spec E arg (advance (boot ds fs) [EMkdir (OUT_DIR E)])) as H.
    cbv zeta in H.
    destruct (get_maine_counties E _).1 as [cs|e|c]; [| |done].
    + destruct (matching (py_strip arg) cs) as [|[iri label] rest].
      * rewrite H; boot_trace. eexists _, []. by split.
      * rewrite H. destruct (construct_outcome _) as [ttl|e].
        -- destruct (disk_ok _ _ _ _); boot_trace;
             (eexists _, [_]; split; [reflexivity|]);
             (constructor; [by exists iri|constructor]).
        -- boot_trace. eexists _, [_]. split; [reflexivity|].
           constructor; [by exists iri|constructor].
    + rewrite H; boot_trace. eexists _, []. by split.
  - pose proof (script_sweep_spec E argv ds fs Hlen) as H.
    destruct (get_maine_counties E _).1 as [cs|e|c]; [| |done].
    + destruct H as (evs & o & Hs & ->). boot_trace.
      rewrite !posts_of_app, sweep_prefix_posts.
      eexists _, _. split; [reflexivity|]. apply Forall_app_2.
      * destruct (sweep_progress _ _ _ _ _ _ Hs) as (k & _ & _ & Hposts & _).
        apply Forall_forall. intros [rq res] Hin.
        assert (Hrq : rq ∈ county_request <$> take k cs).
        { rewrite <- Hposts. apply list_elem_of_fmap. by exists (rq, res). }
        apply list_elem_of_fmap in Hrq as ([iri label] & -> & _). by exists iri.
      * destruct o; by constructor.
    + rewrite H; boot_trace. eexists _, []. by split.
Qed.

(** X6: in a run in which line 11 passes, in either mode, the first request
    is the selection query, it is the only one, and every later request is
    the extraction query of some identifier; so all requests go to the one
    endpoint, with certificate verification off. A run in which line 11
    raises sends no request. *)
Theorem requests_of_a_run a E argv ds fs :
  let run := invocation a E argv (boot ds fs) in
  match a with
  | MkdirDone =>
      exists res rest,
        posts_of (trace run.2) = (SELECT, res) :: rest
        /\ Forall (fun x => exists county_iri,
                     x.1 = construct_request (construct_for_county county_iri)) rest
        /\ Forall (fun x => req_url x.1 = KWG_ENDPOINT /\ req_verify x.1 = false)
             (posts_of (trace run.2))
  | MkdirRaises _ _ => posts_of (trace run.2) = []
  end.
Proof.
  intros run. destruct a as [|made msg]; [|reflexivity].
  destruct (script_posts E argv ds fs) as (res & rest & Hposts & Hrest).
  exists res, rest. unfold run, invocation.
  split; [done|]. split; [done|]. rewrite Hposts. constructor; [done|].
  eapply Forall_impl; [exact Hrest|]. intros [rq r] [iri Hrq]. simpl in *. by subst.
Qed.

(** X7: in a sweep the counties are requested in enumeration order, one
    request each and none twice, up to the county at which the run stops,
    and the progress messages number them 1, 2, ... out of the number of
    counties; a run that ends normally has requested them all. *)
Theorem sweep_requests_in_order E argv ds fs cs :
  length argv <> 2 ->
  (get_maine_counties E (sweep_start E ds fs)).1 = Returned cs ->
  let run := script E argv (boot ds fs) in
  exists k,
    k <= length cs
    /\ (run.1 = Returned tt -> k = length cs)
    /\ fst <$> posts_of (trace run.2) = SELECT :: (county_request <$> take k cs)
    /\ exporting_of (trace run.2) = (fun j => (j, length cs)) <$> seq 1 k.
Proof.
  intros Hlen Henum run. pose proof (script_sweep_spec E argv ds fs Hlen) as H.
  rewrite Henum in H. destruct H as (evs & o & Hs & Hrun).
  destruct (sweep_progress _ _ _ _ _ _ Hs) as (k & Hk & Hret & Hposts & Hexp).
  exists k. unfold run. rewrite Hrun. boot_trace.
  split; [done|]. split; [done|].
  rewrite !posts_of_app, !exporting_of_app, sweep_prefix_posts, !fmap_app, Hposts, Hexp.
  split.
  - destruct o; simpl; by rewrite app_nil_r.
  - destruct o; simpl; by rewrite app_nil_r.
Qed.

Lemma sweep_requests_in_order_witness :
  let E := service two_counties (ok_response TURTLE_DOC None) false in
  let cs := [(IRI_23001, ANDROSCOGGIN); (IRI_23003, AROOSTOOK)] in
  let run := script E [PROG] (boot ∅ ∅) in
  exists k,
    k <= length cs
    /\ (run.1 = Returned tt -> k = length cs)
    /\ fst <$> posts_of (trace run.2) = SELECT :: (county_request <$> take k cs)
    /\ exporting_of (trace run.2) = (fun j => (j, length cs)) <$> seq 1 k.
Proof.
  intros E cs run.
  apply (sweep_requests_in_order E [PROG] ∅ ∅ cs).
  - simpl. lia.
  - vm_compute. reflexivity.
Defined.

(** X8: a sweep never leaves through [sys.exit]; it ends normally exactly
    when its last event is the final message of line 162, and otherwise
    with an exception, so that its exit status is 0 or 1. *)
Theorem sweep_ends_with_done E argv ds fs :
  length argv <> 2 ->
  let run := script E argv (boot ds fs) in
  (forall status, run.1 <> Exited status)
  /\ (run.1 = Returned tt <-> last (trace run.2) = Some (EPrint MDone))
  /\ (exit_status run.1 = 0%Z \/ exit_status run.1 = 1%Z).
Proof.
  intros Hlen run. pose proof (script_sweep_spec E argv ds fs Hlen) as H.
  unfold run.
  destruct (get_maine_counties E _).1 as [cs|e|c]; [| |done].
  - destruct H as (evs & o & Hs & ->). boot_trace. cbn [fst].
    destruct (sweep_outcome _ _ _ _ _ _ Hs) as [->|(-> & p & ttl & Hlast)].
    + split; [done|]. split; [|by left]. split; [|done]. intros _.
      by rewrite app_assoc, last_snoc.
    + split; [done|]. split; [|by right]. split; [done|].
      rewrite app_nil_r, last_app, Hlast. done.
  - rewrite H; boot_trace. cbn [fst]. split; [done|]. split; [|by right].
    split; [done|]. by rewrite app_comm_cons, last_snoc.
Qed.

Lemma sweep_ends_with_done_witness :
  let E := service two_counties (ok_response HTML_PAGE None) true in
  let run := script E [PROG] (boot ∅ ∅) in
  (forall status, run.1 <> Exited status)
  /\ (run.1 = Returned tt <-> last (trace run.2) = Some (EPrint MDone))
  /\ (exit_status run.1 = 0%Z \/ exit_status run.1 = 1%Z).
Proof.
  intros E run. apply (sweep_ends_with_done E [PROG] ∅ ∅). simpl. lia.
Defined.



(** X10: every file written in a sweep holds, unchanged, the body of the
    answer to the request of its own county, and that answer has no error
    status and does not look like HTML. *)
Theorem sweep_writes_bodies E argv ds fs p content ok :
  length argv <> 2 ->
  let run := script E argv (boot ds fs) in
  (p, content, ok) ∈ writes_of (trace run.2) ->
  exists c r,
    p = out_path E c
    /\ (county_request c, PostReturned r) ∈ posts_of (trace run.2)
    /\ content = text r
    /\ error_status (status_code r) = false
    /\ looks_like_html content = false.
Proof.
  intros Hlen run. pose proof (script_sweep_spec E argv ds fs Hlen) as H.
  unfold run.
  destruct (get_maine_counties E _).1 as [cs|e|c]; [| |done].
  - destruct H as (evs & o & Hs & ->). boot_trace.
    rewrite !writes_of_app, !posts_of_app, sweep_prefix_writes, app_nil_l.
    intros [Hin|Hin]%elem_of_app.
    + destruct (sweep_write_paths _ _ _ _ _ _ Hs _ _ _ Hin) as (c & res & _ & -> & Hpost & Hacc).
      destruct (accepted_returned _ _ Hacc) as (r & -> & <- & Hst).
      exists c, r. split; [done|]. split; [|split; [done|split; [done|]]].
      * apply elem_of_app. right. apply elem_of_app. by left.
      * by eapply accepted_not_html.
    + destruct o; simpl in Hin; by apply elem_of_nil in Hin.
  - rewrite H; boot_trace. simpl. by intros ?%elem_of_nil.
Qed.

Lemma sweep_writes_bodies_witness :
  let E := service two_counties (ok_response TURTLE_DOC None) true in
  let run := script E [PROG] (boot ∅ ∅) in
  exists c r,
    OUT_DIR E ++ [ANDROSCOGGIN_TTL] = out_path E c
    /\ (county_request c, PostReturned r) ∈ posts_of (trace run.2)
    /\ TURTLE_DOC = text r
    /\ error_status (status_code r) = false
    /\ looks_like_html TURTLE_DOC = false.
Proof.
  intros E run.
  apply (sweep_writes_bodies E [PROG] ∅ ∅ (OUT_DIR E ++ [ANDROSCOGGIN_TTL]) TURTLE_DOC true).
  - simpl. lia.
  - vm_compute. left.
Defined.

(** ** Files, enumeration failures and the HTML test *)

Lemma apply_writes_written evs fs p :
  apply_writes evs fs !! p
  = match written p evs with Some content => Some content | None => fs !! p end.
Proof.
  induction evs as [|ev evs IH] using rev_ind; [done|].
  unfold apply_writes, written in *. rewrite !foldl_app. cbn [foldl].
  destruct ev as [| |q content [|]| |]; cbn [apply_event]; try exact IH.
  destruct (decide (q = p)) as [->|Hne].
  - by rewrite lookup_insert_eq.
  - by rewrite lookup_insert_ne.
Qed.

(** X11: after a run in which no write to a path failed, the path holds the
    content of the last write of the run to it, and what it held before the
    run when the run did not write to it: an existing file is replaced by a
    new export and is left alone when its county is skipped. *)
Theorem files_after_run a E argv ds fs p :
  let run := invocation a E argv (boot ds fs) in
  (forall content, (p, content, false) ∉ writes_of (trace run.2)) ->
  files run.2 !! p
  = match written p (trace run.2) with
    | Some content => Some content
    | None => fs !! p
    end.
Proof.
  intros run _. destruct a as [|made msg]; [|reflexivity].
  destruct (script_frame E argv ds fs) as (o & evs & Hrun & _ & _).
  unfold run, invocation. rewrite Hrun. cbn [snd]. rewrite trace_boot.
  cbn [advance files boot]. apply apply_writes_written.
Qed.

Lemma files_after_run_witness :
  let E := flaky_service in
  let old := {[ out_path E (IRI_23001, ANDROSCOGGIN) := py "old export";
                out_path E (IRI_23003, AROOSTOOK) := py "old export" ]} in
  let run := invocation MkdirDone E [PROG] (boot ∅ old) in
  (forall content,
     (out_path E (IRI_23003, AROOSTOOK), content, false) ∉ writes_of (trace run.2))
  /\ files run.2 !! out_path E (IRI_23003, AROOSTOOK) = Some TURTLE_DOC
  /\ files run.2 !! out_path E (IRI_23001, ANDROSCOGGIN) = Some (py "old export").
Proof.
  intros E old run.
  assert (Hw : writes_of (trace run.2)
               = [(out_path E (IRI_23003, AROOSTOOK), TURTLE_DOC, true)])
    by (vm_compute; reflexivity).
  assert (H1 : forall p content, (p, content, false) ∉ writes_of (trace run.2)).
  { intros p content Hin. rewrite Hw in Hin.
    apply list_elem_of_singleton in Hin. discriminate Hin. }
  split; [apply H1|]. split.
  - rewrite (files_after_run MkdirDone E [PROG] ∅ old _ (H1 _)). vm_compute. reflexivity.
  - rewrite (files_after_run MkdirDone E [PROG] ∅ old _ (H1 _)). vm_compute. reflexivity.
Defined.

(** X12: the enumeration fails with the exception of the first step that
    fails: the transport exception, the HTTP error of a 4xx or 5xx status,
    the decoding error of a body that is not JSON, or the key error of a
    document without [results] or without [bindings]. *)
Theorem enumeration_failures E w :
  let res := net E (now w) SELECT in
  let out := (get_maine_counties E w).1 in
  (forall e, res = PostRaised e -> out = Raised e)
  /\ (forall r, res = PostReturned r -> error_status (status_code r) = true ->
        out = Raised (HTTPError (status_code r) (text r)))
  /\ (forall r, res = PostReturned r -> error_status (status_code r) = false ->
        json_body r = None -> out = Raised JSONDecodeError)
  /\ (forall r data, res = PostReturned r -> error_status (status_code r) = false ->
        json_body r = Some data -> data !! "results" = None ->
        out = Raised (KeyError "results"))
  /\ (forall r data results, res = PostReturned r ->
        error_status (status_code r) = false ->
        json_body r = Some data -> data !! "results" = Some results ->
        results !! "bindings" = None ->
        out = Raised (KeyError "bindings")).
Proof.
  intros res out. unfold out, res, get_maine_counties, run_select, post. fold SELECT.
  repeat split.
  - intros e He. py_unfold. by rewrite He.
  - intros r Hr Hst. py_unfold. by rewrite Hr, raise_for_status_pure, Hst.
  - intros r Hr Hst Hjson. py_unfold. rewrite Hr, raise_for_status_pure, Hst.
    unfold resp_json. by rewrite Hjson.
  - intros r data Hr Hst Hjson Hres. py_unfold. rewrite Hr, raise_for_status_pure, Hst.
    unfold resp_json. rewrite Hjson. py_unfold. by rewrite getitem_pure, Hres.
  - intros r data results Hr Hst Hjson Hres Hbs. py_unfold.
    rewrite Hr, raise_for_status_pure, Hst.
    unfold resp_json. rewrite Hjson. py_unfold.
    by rewrite getitem_pure, Hres, getitem_pure, Hbs.
Qed.

Lemma enumeration_failures_witness :
  let E := {| home := [py "home"];
              net := fun _ _ => PostReturned {| status_code := 502; text := py "Bad Gateway";
                                                json_body := None |};
              disk_ok := fun _ _ _ => true |} in
  (get_maine_counties E (boot ∅ ∅)).1 = Raised (HTTPError 502 (py "Bad Gateway")).
Proof.
  intros E.
  exact (proj1 (proj2 (enumeration_failures E (boot ∅ ∅))) _ eq_refl eq_refl).
Defined.

Lemma county_of_binding_missing b w :
  binding_pair b = None ->
  exists key, key ∈ ["county"; "value"; "label"]
              /\ county_of_binding b w = (Raised (KeyError key), w).
Proof.
  unfold county_of_binding, binding_pair. py_unfold. rewrite !getitem_pure.
  destruct (b !! "county") as [c|]; simpl; [|intros _; exists "county"; set_solver].
  rewrite getitem_pure. destruct (c !! "value") as [iri|]; simpl;
    [|intros _; exists "value"; set_solver].
  rewrite getitem_pure. destruct (b !! "label") as [l|]; simpl;
    [|intros _; exists "label"; set_solver].
  rewrite getitem_pure. destruct (l !! "value") as [label|]; simpl;
    [done|intros _; exists "value"; set_solver].
Qed.

Lemma collect_counties_missing bs w :
  Exists (fun b => binding_pair b = None) bs ->
  exists key, key ∈ ["county"; "value"; "label"]
              /\ collect_counties bs w = (Raised (KeyError key), w).
Proof.
  induction bs as [|b bs IH]; intros Hex; [by apply Exists_nil in Hex|].
  cbn [collect_counties].
  destruct (binding_pair b) as [p|] eqn:Hp.
  - destruct (county_of_binding_pure b w) as (o & Hb & _ & Hok).
    rewrite (Hok _ Hp) in Hb. rewrite (bind_Returned _ _ _ _ _ Hb).
    apply Exists_cons in Hex as [Hex|Hex]; [congruence|].
    destruct (IH Hex) as (key & Hkey & Hc). exists key. split; [done|].
    by rewrite (bind_Raised _ _ _ _ _ Hc).
  - destruct (county_of_binding_missing b w Hp) as (key & Hkey & Hb).
    exists key. split; [done|]. by rewrite (bind_Raised _ _ _ _ _ Hb).
Qed.

(** X13: the enumeration is all or nothing: when one binding of the answer
    lacks the county, the label or the value of one of them, the function
    raises a key error and returns none of the other counties. *)
Theorem enumeration_all_or_nothing E w r data results bs :
  net E (now w) SELECT = PostReturned r ->
  error_status (status_code r) = false ->
  json_body r = Some data ->
  data !! "results" = Some results ->
  results !! "bindings" = Some bs ->
  Exists (fun b => binding_pair b = None) bs ->
  exists key, key ∈ ["county"; "value"; "label"]
              /\ (get_maine_counties E w).1 = Raised (KeyError key).
Proof.
  intros Hnet Hst Hjson Hres Hbs Hex.
  unfold get_maine_counties, run_select, post. fold SELECT. py_unfold.
  rewrite Hnet, raise_for_status_pure, Hst. unfold resp_json. rewrite Hjson.
  py_unfold. rewrite getitem_pure, Hres, getitem_pure, Hbs.
  match goal with |- context [collect_counties bs ?w1] =>
    destruct (collect_counties_missing bs w1 Hex) as (key & Hkey & Hc) end.
  exists key. split; [done|]. by rewrite Hc.
Qed.

Lemma enumeration_all_or_nothing_witness :
  let bs := [mk_binding IRI_23001 ANDROSCOGGIN;
             {[ "county" := {[ "value" := IRI_23003 ]} ]}] in
  let E := service bs (ok_response TURTLE_DOC None) true in
  exists key, key ∈ ["county"; "value"; "label"]
              /\ (get_maine_counties E (boot ∅ ∅)).1 = Raised (KeyError key).
Proof.
  intros bs E.
  apply (enumeration_all_or_nothing E (boot ∅ ∅)
           {| status_code := 200; text := []; json_body := Some (mk_doc bs) |}
           (mk_doc bs) {[ "bindings" := bs ]} bs).
  - reflexivity.
  - reflexivity.
  - reflexivity.
  - reflexivity.
  - reflexivity.
  - apply Exists_cons_tl, Exists_cons_hd. reflexivity.
Defined.

(** X14: when the enumeration returns no county, the sweep sends no
    extraction request, writes nothing and ends normally after the count
    and the final message. *)
Theorem sweep_of_no_county E argv ds fs :
  length argv <> 2 ->
  (get_maine_counties E (sweep_start E ds fs)).1 = Returned [] ->
  let run := script E argv (boot ds fs) in
  run.1 = Returned tt
  /\ trace run.2 = sweep_prefix E ds fs 0 ++ [EPrint MDone]
  /\ fst <$> posts_of (trace run.2) = [SELECT]
  /\ files run.2 = fs.
Proof.
  intros Hlen Henum run. pose proof (script_sweep_spec E argv ds fs Hlen) as H.
  rewrite Henum in H. destruct H as (evs & o & Hs & Hrun).
  inversion Hs; subst. unfold run. rewrite Hrun. by boot_trace.
Qed.

Lemma sweep_of_no_county_witness :
  let E := service [] (ok_response TURTLE_DOC None) true in
  let run := script E [PROG] (boot ∅ ∅) in
  run.1 = Returned tt
  /\ trace run.2 = sweep_prefix E ∅ ∅ 0 ++ [EPrint MDone]
  /\ fst <$> posts_of (trace run.2) = [SELECT]
  /\ files run.2 = ∅.
Proof.
  intros E run. apply (sweep_of_no_county E [PROG] ∅ ∅).
  - simpl. lia.
  - vm_compute. reflexivity.
Defined.







(** X16: in single-county mode, when the extraction returns a response
    without an error status and the write succeeds, the body is written
    unchanged to the county's file, whatever it is (there is no HTML test on
    this path), the path is reported and the script ends with status 0. *)
Theorem single_mode_writes_body E prog arg ds fs cs c rest r :
  (get_maine_counties E (single_start E ds fs)).1 = Returned cs ->
  matching (py_strip arg) cs = c :: rest ->
  net E 3 (county_request c) = PostReturned r ->
  error_status (status_code r) = false ->
  disk_ok E 4 (out_path E c) (text r) = true ->
  let run := script E [prog; arg] (boot ds fs) in
  run.1 = Returned tt
  /\ exit_status run.1 = 0%Z
  /\ writes_of (trace run.2) = [(out_path E c, text r, true)]
  /\ files run.2 !! out_path E c = Some (text r)
  /\ last (trace run.2) = Some (EPrint (MSavedPath (out_path E c))).
Proof.
  intros Henum Hmatch Hnet Hst Hdisk run. unfold run. rewrite script_single.
  fold (single_start E ds fs).
  pose proof (single_spec E arg (single_start E ds fs)) as H. cbv zeta in H.
  rewrite Henum, Hmatch in H. pose proof (matching_head _ _ _ _ Hmatch) as Hc.
  destruct c as [iri label]. simpl in Hc.
  assert (Hp : OUT_DIR E ++ [ttl_name label (py_strip arg)] = out_path E (iri, label)).
  { unfold out_path. simpl. by rewrite Hc. }
  rewrite Hp in H.
  change (now (single_start E ds fs)) with 1 in H.
  change (construct_request (construct_for_county iri))
    with (county_request (iri, label)) in H.
  rewrite Hnet in H. cbn [construct_outcome] in H. rewrite Hst, Hdisk in H.
  rewrite H. unfold single_start. boot_trace. cbn [advance files boot].
  split; [done|]. split; [done|]. split; [done|]. split.
  - unfold apply_writes. simpl. apply lookup_insert_eq.
  - done.
Qed.

Lemma single_mode_writes_body_witness :
  let E := service two_counties (ok_response HTML_PAGE None) true in
  let c := (IRI_23003, AROOSTOOK) in
  let run := script E [PROG; py "23003"] (boot ∅ ∅) in
  run.1 = Returned tt
  /\ exit_status run.1 = 0%Z
  /\ writes_of (trace run.2) = [(out_path E c, HTML_PAGE, true)]
  /\ files run.2 !! out_path E c = Some HTML_PAGE
  /\ last (trace run.2) = Some (EPrint (MSavedPath (out_path E c))).
Proof.
  intros E c run.
  apply (single_mode_writes_body E PROG (py "23003") ∅ ∅
           [(IRI_23001, ANDROSCOGGIN); (IRI_23003, AROOSTOOK)] c []
           {| status_code := 200; text := HTML_PAGE; json_body := None |}).
  - vm_compute. reflexivity.
  - vm_compute. reflexivity.
  - reflexivity.
  - reflexivity.
  - reflexivity.
Defined.

(** ** The converter *)

Example triplify_two_rows :
  crop_triples_ttl
    [[Val (py "1"); Val (py "Corn"); Val (py " Field Crops "); NaN];
     [NaN; Val (py "x"); Val (py "FieldCrops"); Val (py "Grains")]]
  = Some (PREFIXES ++ [newline]
          ++ py "ag:cropCategory.FieldCrops a ag:cropCategory," ++ [newline]
          ++ py "        owl:NamedIndividual ;" ++ [newline]
          ++ py "    rdfs:label " ++ [dquote] ++ py "Crop Category for FieldCrops"
          ++ [dquote] ++ py "^^xsd:string ." ++ [newline] ++ [newline]
          ++ py "ag:cropSubCategory.Grains a ag:cropSubCategory," ++ [newline]
          ++ py "        owl:NamedIndividual ;" ++ [newline]
          ++ py "    rdfs:label " ++ [dquote] ++ py "Crop Sub Category for Grains"
          ++ [dquote] ++ py "^^xsd:string ." ++ [newline] ++ [newline]
          ++ str_join [newline] CLASS_LINES ++ [newline]
          ++ py "kwgr:croplandObservableProperty.1 ag:hasCropCategory ag:cropCategory.FieldCrops ."
          ++ [newline] ++ [newline]
          ++ py "kwgr:croplandObservableProperty.nan ag:hasCropCategory ag:cropCategory.FieldCrops ;"
          ++ [newline]
          ++ py "                                 ag:hasCropSubCategory ag:cropSubCategory.Grains ."
          ++ [newline]).
Proof. vm_compute. reflexivity. Qed.

Lemma str_le_total : Total str_le_rel.
Proof.
  intros a. unfold str_le_rel. induction a as [|x a IH]; intros [|y b]; simpl; auto.
  destruct (IH b) as [H|H]; rewrite H, !andb_true_r;
    rewrite !orb_true_iff, !N.ltb_lt, !N.eqb_eq; lia.
Qed.

Lemma str_le_trans : Transitive str_le_rel.
Proof.
  intros a. unfold str_le_rel. induction a as [|x a IH]; intros [|y b] [|z c]; simpl; try done.
  rewrite !orb_true_iff, !andb_true_iff, !N.ltb_lt, !N.eqb_eq.
  intros [H1|[H1 H1']] [H2|[H2 H2']]; try (left; lia).
  right. split; [lia|]. by eapply IH.
Qed.

Lemma elem_of_py_sorted names x : x ∈ py_sorted names <-> x ∈ names.
Proof. unfold py_sorted. by rewrite merge_sort_Permutation, elem_of_elements. Qed.

Lemma NoDup_py_sorted names : NoDup (py_sorted names).
Proof. unfold py_sorted. rewrite merge_sort_Permutation. apply NoDup_elements. Qed.

Lemma StronglySorted_py_sorted names : StronglySorted str_le_rel (py_sorted names).
Proof.
  unfold py_sorted.
  apply (@StronglySorted_merge_sort _ str_le_rel _ str_le_trans str_le_total).
Qed.

Lemma optional_field_is_Some r k : is_Some (optional_field r k) <-> k < length r.
Proof.
  unfold optional_field. rewrite <- lookup_lt_is_Some.
  destruct (r !! k); simpl; split; intros [? ?]; eauto; done.
Qed.

Lemma space_is_space : py_isspace space = true.
Proof. reflexivity. Qed.

(** A name that is not empty after stripping keeps a character when its
    spaces are removed. *)
Lemma remove_spaces_stripped s :
  py_strip s <> [] -> remove_spaces (py_strip s) <> [].
Proof.
  intros Hne. destruct (strip_by_ends py_isspace s) as [Hl _].
  fold (py_strip s) in Hl. apply drop_while_fixed_head in Hl.
  destruct (py_strip s) as [|c v]; [done|].
  unfold remove_spaces. rewrite filter_cons_True; [done|].
  intros ->. by rewrite space_is_space in Hl.
Qed.

Lemma remove_spaces_no_space s : space ∉ remove_spaces s.
Proof. unfold remove_spaces. intros [H _]%list_elem_of_filter. done. Qed.

Lemma optional_field_stripped r k v :
  optional_field r k = Some (Some v) -> exists s, v = py_strip s.
Proof.
  unfold optional_field. destruct (r !! k) as [c|]; simpl; [|done].
  destruct (notna c); [|done]. intros [= <-]. by eexists.
Qed.

Lemma elem_of_add_name name names x :
  x ∈ add_name name names
  <-> x ∈ names \/ exists v, name = Some v /\ v <> [] /\ x = remove_spaces v.
Proof.
  unfold add_name. destruct name as [[|c s]|].
  - split; [by left|]. intros [?|(v & [= <-] & ? & _)]; done.
  - rewrite elem_of_union, elem_of_singleton. split.
    + intros [->|?]; [right; by eexists|by left].
    + intros [?|(v & [= <-] & _ & ->)]; [by right|by left].
  - split; [by left|]. intros [?|(v & ? & _)]; done.
Qed.

Lemma collect_names_spec df :
  forall cats subs,
    Forall (fun r => 4 <= length r) df ->
    exists cats' subs',
      collect_names df cats subs = Some (cats', subs')
      /\ (forall x, x ∈ cats' <-> x ∈ cats \/ named 2 df x)
      /\ (forall x, x ∈ subs' <-> x ∈ subs \/ named 3 df x).
Proof.
  induction df as [|r df IH]; intros cats subs Hall.
  - exists cats, subs. split; [done|].
    split; intros x; (split; [by left|]);
      intros [?|(r & v & Hr & _)]; try done; by apply elem_of_nil in Hr.
  - apply Forall_cons in Hall as [Hr Hall]. cbn [collect_names].
    destruct (proj2 (optional_field_is_Some r 2)) as [f2 H2]; [lia|].
    destruct (proj2 (optional_field_is_Some r 3)) as [f3 H3]; [lia|].
    rewrite H2, H3. simpl.
    destruct (IH (add_name f2 cats) (add_name f3 subs) Hall)
      as (cats' & subs' & Hc & Hcats & Hsubs).
    exists cats', subs'. split; [done|]. split; intros x.
    + rewrite Hcats, elem_of_add_name. unfold named. split.
      * intros [[?|(v & -> & Hv & ->)]|(r' & v & Hr' & ?)]; [by left| |].
        -- right. exists r, v. split; [by left|done].
        -- right. exists r', v. split; [by right|done].
      * intros [?|(r' & v & [->|Hr']%elem_of_cons & Hf & Hv & ->)]; [by left; left| |].
        -- left. right. exists v. rewrite H2 in Hf. by injection Hf as ->.
        -- right. by exists r', v.
    + rewrite Hsubs, elem_of_add_name. unfold named. split.
      * intros [[?|(v & -> & Hv & ->)]|(r' & v & Hr' & ?)]; [by left| |].
        -- right. exists r, v. split; [by left|done].
        -- right. exists r', v. split; [by right|done].
      * intros [?|(r' & v & [->|Hr']%elem_of_cons & Hf & Hv & ->)]; [by left; left| |].
        -- left. right. exists v. rewrite H3 in Hf. by injection Hf as ->.
        -- right. by exists r', v.
Qed.

Lemma collect_names_long df :
  forall cats subs, is_Some (collect_names df cats subs) ->
                    Forall (fun r => 4 <= length r) df.
Proof.
  induction df as [|r df IH]; intros cats subs Hsome; [constructor|].
  cbn [collect_names] in Hsome.
  destruct (optional_field r 2) as [f2|] eqn:H2; [|by destruct Hsome].
  destruct (optional_field r 3) as [f3|] eqn:H3; [|by destruct Hsome].
  simpl in Hsome. constructor; [|by eapply IH].
  assert (3 < length r) by (apply optional_field_is_Some; by rewrite H3). lia.
Qed.

Lemma row_line_is_Some r : 4 <= length r -> is_Some (row_line r).
Proof.
  intros Hr. unfold row_line.
  destruct (lookup_lt_is_Some_2 r 0) as [c Hc]; [lia|].
  destruct (proj2 (optional_field_is_Some r 2)) as [f2 H2]; [lia|].
  destruct (proj2 (optional_field_is_Some r 3)) as [f3 H3]; [lia|].
  rewrite Hc, H2, H3. simpl. by eexists.
Qed.

(** X17: the converter raises exactly when some row has fewer than four
    cells (it reads the cells at positions 0, 2 and 3); otherwise it
    produces its text. *)
Theorem triplify_needs_four_cells (df : list (list cell)) :
  is_Some (crop_triples_ttl df) <-> Forall (fun r => 4 <= length r) df.
Proof.
  unfold crop_triples_ttl. rewrite fmap_is_Some. unfold triplify. split.
  - intros Hsome. destruct (collect_names df ∅ ∅) as [names|] eqn:Hn;
      [|by destruct Hsome].
    apply (collect_names_long df ∅ ∅). by rewrite Hn.
  - intros Hall.
    destruct (collect_names_spec df ∅ ∅ Hall) as (cats & subs & -> & _). simpl.
    destruct (mapM_is_Some_2 row_line df) as [rows ->]; [|by eexists].
    eapply Forall_impl; [exact Hall|]. intros r Hr. by apply row_line_is_Some.
Qed.

Lemma mapM_row_lines df rows r :
  mapM row_line df = Some rows -> r ∈ df ->
  exists y, row_line r = Some y /\ y ∈ rows.
Proof.
  intros Hm%mapM_Some_1 Hr. apply list_elem_of_lookup in Hr as [i Hi].
  destruct (Forall2_lookup_l _ _ _ _ _ Hm Hi) as (y & Hy & Hrow).
  exists y. split; [done|]. apply list_elem_of_lookup. by exists i.
Qed.

Lemma triplify_Some df out :
  triplify df = Some out ->
  exists cats subs rows,
    out = [PREFIXES] ++ flat_map category_lines (py_sorted cats)
          ++ flat_map subcategory_lines (py_sorted subs) ++ CLASS_LINES ++ omap id rows
    /\ (forall x, x ∈ cats <-> named 2 df x)
    /\ (forall x, x ∈ subs <-> named 3 df x)
    /\ mapM row_line df = Some rows.
Proof.
  unfold triplify. intros H.
  destruct (collect_names df ∅ ∅) as [[cats subs]|] eqn:Hn; [|done]. simpl in H.
  destruct (mapM row_line df) as [rows|] eqn:Hm; [|done]. simpl in H.
  injection H as <-. exists cats, subs, rows. split; [done|].
  assert (Hall : Forall (fun r => 4 <= length r) df).
  { apply (collect_names_long df ∅ ∅). by rewrite Hn. }
  destruct (collect_names_spec df ∅ ∅ Hall) as (cats' & subs' & Hn' & Hcats & Hsubs).
  rewrite Hn in Hn'. injection Hn' as <- <-.
  split; [|split; [|done]]; intros x.
  - rewrite Hcats. split; [intros [Hx|Hx]|by right]; [|done].
    by apply elem_of_empty in Hx.
  - rewrite Hsubs. split; [intros [Hx|Hx]|by right]; [|done].
    by apply elem_of_empty in Hx.
Qed.

Lemma omap_id_length {A} (l : list (option A)) : length (omap id l) <= length l.
Proof. induction l as [|[x|] l IH]; cbn in *; lia. Qed.

(** X18: the output declares the categories and then the subcategories,
    each once and in ascending order of the code points; the declared names
    are exactly the stripped, non-empty values of the third and fourth cells
    with their spaces removed, so no declared name is empty or holds a
    space. *)
Theorem triplify_declarations (df : list (list cell)) (out : list pystr) :
  triplify df = Some out ->
  exists cats subs rows,
    out = [PREFIXES] ++ flat_map category_lines cats
          ++ flat_map subcategory_lines subs ++ CLASS_LINES ++ rows
    /\ StronglySorted str_le_rel cats /\ NoDup cats
    /\ StronglySorted str_le_rel subs /\ NoDup subs
    /\ (forall x, x ∈ cats <-> named 2 df x)
    /\ (forall x, x ∈ subs <-> named 3 df x)
    /\ (forall x, x ∈ cats ++ subs -> x <> [] /\ space ∉ x)
    /\ length rows <= length df.
Proof.
  intros (cats & subs & rows & -> & Hcats & Hsubs & Hrows)%triplify_Some.
  exists (py_sorted cats), (py_sorted subs), (omap id rows).
  split; [done|].
  split; [apply StronglySorted_py_sorted|]. split; [apply NoDup_py_sorted|].
  split; [apply StronglySorted_py_sorted|]. split; [apply NoDup_py_sorted|].
  split; [intros x; by rewrite elem_of_py_sorted|].
  split; [intros x; by rewrite elem_of_py_sorted|]. split.
  - assert (Hnamed : forall k x, named k df x -> x <> [] /\ space ∉ x).
    { intros k x (r & v & _ & Hf & Hv & ->).
      destruct (optional_field_stripped _ _ _ Hf) as [s ->].
      split; [by apply remove_spaces_stripped|apply remove_spaces_no_space]. }
    intros x [Hx|Hx]%elem_of_app; rewrite elem_of_py_sorted in Hx.
    + apply (Hnamed 2). by apply Hcats.
    + apply (Hnamed 3). by apply Hsubs.
  - rewrite (length_mapM _ _ _ Hrows). apply omap_id_length.
Qed.

Lemma triplify_declarations_witness :
  let df := [[Val (py "1"); Val (py "Corn"); Val (py " Field Crops "); NaN];
             [NaN; Val (py "x"); Val (py "FieldCrops"); Val (py "Grains")]] in
  exists out cats subs rows,
    triplify df = Some out
    /\ out = [PREFIXES] ++ flat_map category_lines cats
             ++ flat_map subcategory_lines subs ++ CLASS_LINES ++ rows
    /\ StronglySorted str_le_rel cats /\ NoDup cats
    /\ StronglySorted str_le_rel subs /\ NoDup subs
    /\ (forall x, x ∈ cats <-> named 2 df x)
    /\ (forall x, x ∈ subs <-> named 3 df x)
    /\ (forall x, x ∈ cats ++ subs -> x <> [] /\ space ∉ x)
    /\ length rows <= length df.
Proof.
  intros df. destruct (triplify df) as [out|] eqn:Hout; [|by vm_compute in Hout].
  destruct (triplify_declarations df out Hout) as (cats & subs & rows & H).
  by exists out, cats, subs, rows.
Defined.

(** X19: every category and every subcategory that a row names is declared
    in the output, also when the row itself gets no triple. *)
Theorem triplify_declares_what_rows_name (df : list (list cell)) (out : list pystr) r v :
  triplify df = Some out ->
  r ∈ df -> v <> [] ->
  (optional_field r 2 = Some (Some v) -> category_head (remove_spaces v) ∈ out)
  /\ (optional_field r 3 = Some (Some v) -> subcategory_head (remove_spaces v) ∈ out).
Proof.
  intros (cats & subs & rows & -> & Hcats & Hsubs & _)%triplify_Some Hr Hv. split.
  - intros Hf. apply elem_of_app. right. apply elem_of_app. left.
    apply list_elem_of_In, in_flat_map. exists (remove_spaces v). split; [|by left].
    apply list_elem_of_In, elem_of_py_sorted, Hcats. by exists r, v.
  - intros Hf. apply elem_of_app. right. apply elem_of_app. right.
    apply elem_of_app. left.
    apply list_elem_of_In, in_flat_map. exists (remove_spaces v). split; [|by left].
    apply list_elem_of_In, elem_of_py_sorted, Hsubs. by exists r, v.
Qed.

Lemma triplify_declares_what_rows_name_witness :
  let r := [Val (py " "); Val (py "Corn"); Val (py " Field Crops "); NaN] in
  exists out,
    triplify [r] = Some out
    /\ category_head (py "FieldCrops") ∈ out.
Proof.
  intros r. destruct (triplify [r]) as [out|] eqn:Hout; [|by vm_compute in Hout].
  exists out. split; [done|].
  apply (proj1 (triplify_declares_what_rows_name [r] out r (py "Field Crops") Hout
                  ltac:(by left) ltac:(done))).
  reflexivity.
Defined.

Lemma str_join_cons sep x l :
  str_join sep (x :: l) = x ++ match l with [] => [] | _ => sep ++ str_join sep l end.
Proof. destruct l; simpl; [by rewrite app_nil_r|done]. Qed.

(** X20: a row whose first cell is missing is not skipped: the missing
    value prints as nan, so a row that names a category gets a triple whose
    subject is kwgr:croplandObservableProperty.nan. *)
Theorem triplify_missing_id (df : list (list cell)) (out : list pystr) r v :
  triplify df = Some out ->
  r ∈ df ->
  r !! 0 = Some NaN ->
  optional_field r 2 = Some (Some v) -> v <> [] ->
  exists rest,
    (PROPERTY ++ py "nan " ++ HAS_CATEGORY ++ remove_spaces v ++ rest) ∈ out.
Proof.
  intros (cats & subs & rows & -> & _ & _ & Hrows)%triplify_Some Hr H0 H2 Hv.
  destruct (mapM_row_lines _ _ _ Hrows Hr) as (y & Hy & Hin).
  unfold row_line in Hy. rewrite H0, H2 in Hy. cbn [mbind option_bind] in Hy.
  destruct (optional_field r 3) as [f3|]; [|done]. cbn [mbind option_bind] in Hy.
  destruct v as [|c v]; [done|].
  change (py_strip (cell_str NaN)) with (py "nan") in Hy.
  cbn [py list_ascii_of_string relation app] in Hy.
  rewrite str_join_cons in Hy. injection Hy as <-.
  eexists. do 4 (apply elem_of_app; right).
  apply list_elem_of_omap. eexists. split; [exact Hin|]. cbn [id].
  f_equal. rewrite <- !app_assoc. reflexivity.
Qed.

Lemma triplify_missing_id_witness :
  let r := [NaN; Val (py "x"); Val (py "FieldCrops"); Val (py "Grains")] in
  exists out rest,
    triplify [r] = Some out
    /\ (PROPERTY ++ py "nan " ++ HAS_CATEGORY ++ py "FieldCrops" ++ rest) ∈ out.
Proof.
  intros r. destruct (triplify [r]) as [out|] eqn:Hout; [|by vm_compute in Hout].
  destruct (triplify_missing_id [r] out r (py "FieldCrops") Hout)
    as [rest Hrest]; [by left|reflexivity|reflexivity|done|].
  by exists out, rest.
Defined.
